(** * agri_risks: the image acquisition and naming pipeline

    A shallow embedding of the crawler of [crawler/ImageCrawler.py], of the
    Yandex adapter of [crawler/yandex_crawler.py] and of the GUID fall-back of
    [crawler/convert_webp_to_jpg.py], together with the properties of the
    identity derivation, the query builder, the source adapters, the fetcher
    and the per-risk acquisition loop.

    Conventions of the embedding.
    - A Python [str] is a list of Unicode code points ([pystr]); a [bytes]
      value is a list of octets.  Literals are written as UTF-8 text and
      decoded by [u8].
    - Case mapping and the character class [\w] are tabulated for ASCII and
      for the Cyrillic block U+0400..U+045F, the alphabets of the
      repository's data; other code points are left unchanged by [lower] and
      are not word characters.
    - [uuid.uuid5] is the standard library's: SHA-1 over the namespace bytes
      followed by the UTF-8 name, with the version and variant bits set.
    - The network and the operating system are an explicit [world] of
      oracles; the file system is a finite map from path strings to file
      contents, and every network request is appended to a trace.
    - [random.choice] of a User-Agent, [time.sleep] and logging do not
      influence any value computed here and are left out. *)

From Stdlib Require Import NArith ZArith List String Ascii Lia Bool.
From stdpp Require Import base gmap list strings fin_maps.

Local Open Scope N_scope.

(** ** Python strings *)

Definition pystr := list N.
Definition bytes := list N.

Definition string_bytes (s : string) : bytes :=
  map N_of_ascii (list_ascii_of_string s).

(** UTF-8 decoding of a well-formed literal. *)
Fixpoint utf8_decode (bs : bytes) : pystr :=
  match bs with
  | [] => []
  | b0 :: r0 =>
    if b0 <? 0x80 then b0 :: utf8_decode r0
    else if b0 <? 0xE0 then
      match r0 with
      | b1 :: r1 => ((b0 - 0xC0) * 64 + (b1 - 0x80)) :: utf8_decode r1
      | _ => []
      end
    else if b0 <? 0xF0 then
      match r0 with
      | b1 :: b2 :: r2 =>
        ((b0 - 0xE0) * 4096 + (b1 - 0x80) * 64 + (b2 - 0x80)) :: utf8_decode r2
      | _ => []
      end
    else
      match r0 with
      | b1 :: b2 :: b3 :: r3 =>
        ((b0 - 0xF0) * 262144 + (b1 - 0x80) * 4096 + (b2 - 0x80) * 64 + (b3 - 0x80))
          :: utf8_decode r3
      | _ => []
      end
  end.

Definition u8 (s : string) : pystr := utf8_decode (string_bytes s).

(** [str.encode('utf-8')]. *)
Definition utf8_encode_cp (c : N) : bytes :=
  if c <? 0x80 then [c]
  else if c <? 0x800 then [0xC0 + c / 64; 0x80 + c mod 64]
  else if c <? 0x10000 then
    [0xE0 + c / 4096; 0x80 + (c / 64) mod 64; 0x80 + c mod 64]
  else
    [0xF0 + c / 262144; 0x80 + (c / 4096) mod 64; 0x80 + (c / 64) mod 64;
     0x80 + c mod 64].

Definition utf8_encode (s : pystr) : bytes := flat_map utf8_encode_cp s.

Definition in_range (lo hi c : N) : bool := (lo <=? c) && (c <=? hi).

(** [str.lower()], code point by code point. *)
Definition lower_cp (c : N) : N :=
  if in_range 0x41 0x5A c then c + 32
  else if in_range 0x410 0x42F c then c + 32
  else if in_range 0x400 0x40F c then c + 80
  else c.

Definition lower (s : pystr) : pystr := map lower_cp s.

(** The regular expression classes [\s] and [\w]. *)
Definition is_space (c : N) : bool :=
  in_range 0x09 0x0D c || in_range 0x1C 0x20 c || (c =? 0x85) || (c =? 0xA0)
  || (c =? 0x1680) || in_range 0x2000 0x200A c || in_range 0x2028 0x2029 c
  || (c =? 0x202F) || (c =? 0x205F) || (c =? 0x3000).

Definition is_word (c : N) : bool :=
  in_range 0x30 0x39 c || in_range 0x41 0x5A c || in_range 0x61 0x7A c
  || (c =? 0x5F) || in_range 0x400 0x45F c.

(** [str.strip()]. *)
Fixpoint lstrip (s : pystr) : pystr :=
  match s with
  | c :: r => if is_space c then lstrip r else s
  | [] => []
  end.

Definition rstrip (s : pystr) : pystr := rev (lstrip (rev s)).
Definition strip (s : pystr) : pystr := rstrip (lstrip s).

(** [s.replace(a, b)] for one-character [a] and [b], and [s.replace(a, '')]. *)
Definition replace_char (a b : N) (s : pystr) : pystr :=
  map (fun c => if c =? a then b else c) s.

Definition remove_char (a : N) (s : pystr) : pystr :=
  List.filter (fun c => negb (c =? a)) s.

Definition pystr_eqb (s t : pystr) : bool := bool_decide (s = t).

(** [s.startswith(p)], [s.endswith(p)] and [p in s]. *)
Fixpoint startswith (p s : pystr) : bool :=
  match p, s with
  | [], _ => true
  | a :: p', b :: s' => (a =? b) && startswith p' s'
  | _ :: _, [] => false
  end.

Definition endswith (p s : pystr) : bool := startswith (rev p) (rev s).

Fixpoint contains (p s : pystr) : bool :=
  startswith p s ||
  match s with
  | [] => false
  | _ :: s' => contains p s'
  end.

(** [s.rsplit(sep, 1)[0]] for a one-character separator: the text before
    the last [sep], or all of [s] when [sep] does not occur. *)
Fixpoint drop_through (sep : N) (r : pystr) : option pystr :=
  match r with
  | [] => None
  | c :: r' => if c =? sep then Some r' else drop_through sep r'
  end.

Definition rsplit1_head (sep : N) (s : pystr) : pystr :=
  match drop_through sep (rev s) with
  | Some r => rev r
  | None => s
  end.

(** [os.path.splitext(p)[1]] of [posixpath]: the extension starts at the last
    dot of the last path component, leading dots of that component apart. *)
Fixpoint basename_rev (r : pystr) : pystr :=
  match r with
  | [] => []
  | c :: r' => if c =? 0x2F then [] else c :: basename_rev r'
  end.

Definition basename (p : pystr) : pystr := rev (basename_rev (rev p)).

Fixpoint ext_rev (r : pystr) : option (pystr * pystr) :=
  match r with
  | [] => None
  | c :: r' =>
    if c =? 0x2E then Some ([c], r')
    else match ext_rev r' with
         | Some (e, stem) => Some (c :: e, stem)
         | None => None
         end
  end.

Definition splitext_ext (p : pystr) : pystr :=
  match ext_rev (basename_rev (rev p)) with
  | Some (e, stem) =>
    if forallb (fun c => c =? 0x2E) stem then [] else rev e
  | None => []
  end.

(** ['%d' % n] and the format [{n:02d}] of a non-negative integer. *)
Fixpoint digits_fuel (fuel : nat) (n : N) (acc : pystr) : pystr :=
  match fuel with
  | O => acc
  | S f =>
    let acc' := (0x30 + n mod 10) :: acc in
    if n <? 10 then acc' else digits_fuel f (n / 10) acc'
  end.

Definition decimal (n : N) : pystr := digits_fuel (S (N.to_nat (N.log2 n))) n [].

Definition format_02d (n : N) : pystr :=
  let d := decimal n in
  if (length d <? 2)%nat then 0x30 :: d else d.

Definition join3 (a b c : pystr) : pystr := a ++ [0x5F] ++ b ++ [0x5F] ++ c.

(** ** SHA-1 and [uuid.uuid5] *)

Module Sha1.

Definition w32 (x : N) : N := x mod 2 ^ 32.
Definition add32 (x y : N) : N := w32 (x + y).
Definition rotl (n x : N) : N :=
  w32 (N.lor (N.shiftl x n) (N.shiftr x (32 - n))).
Definition not32 (x : N) : N := 2 ^ 32 - 1 - x.

Definition pad (msg : bytes) : bytes :=
  let len := N.of_nat (length msg) in
  let zeros := N.to_nat ((119 - len mod 64) mod 64) in
  let bits := 8 * len in
  msg ++ [0x80] ++ repeat 0 zeros
      ++ map (fun i => (bits / 256 ^ i) mod 256) [7; 6; 5; 4; 3; 2; 1; 0].

Fixpoint be_words (n : nat) (bs : bytes) : list N :=
  match n, bs with
  | S n', b0 :: b1 :: b2 :: b3 :: r =>
    (b0 * 16777216 + b1 * 65536 + b2 * 256 + b3) :: be_words n' r
  | _, _ => []
  end.

Definition schedule_step (ws : list N) : list N :=
  let t := length ws in
  let at_ k := nth (t - k) ws 0 in
  ws ++ [rotl 1 (N.lxor (N.lxor (at_ 3%nat) (at_ 8%nat))
                        (N.lxor (at_ 14%nat) (at_ 16%nat)))].

Definition schedule (block : bytes) : list N :=
  Nat.iter 64 schedule_step (be_words 16 block).

Definition state : Type := N * N * N * N * N.

Definition round (t : nat) (s : state) (w : N) : state :=
  let '(a, b, c, d, e) := s in
  let '(f, k) :=
    if (t <? 20)%nat then
      (N.lor (N.land b c) (N.land (not32 b) d), 0x5A827999)
    else if (t <? 40)%nat then
      (N.lxor (N.lxor b c) d, 0x6ED9EBA1)
    else if (t <? 60)%nat then
      (N.lor (N.lor (N.land b c) (N.land b d)) (N.land c d), 0x8F1BBCDC)
    else (N.lxor (N.lxor b c) d, 0xCA62C1D6) in
  (add32 (add32 (add32 (add32 (rotl 5 a) f) e) k) w, a, rotl 30 b, c, d).

Fixpoint rounds (t : nat) (ws : list N) (s : state) : state :=
  match ws with
  | [] => s
  | w :: ws' => rounds (S t) ws' (round t s w)
  end.

Definition compress (h : state) (block : bytes) : state :=
  let '(h0, h1, h2, h3, h4) := h in
  let '(a, b, c, d, e) := rounds 0 (schedule block) h in
  (add32 h0 a, add32 h1 b, add32 h2 c, add32 h3 d, add32 h4 e).

Fixpoint blocks (n : nat) (bs : bytes) (h : state) : state :=
  match n with
  | O => h
  | S n' => blocks n' (skipn 64 bs) (compress h (firstn 64 bs))
  end.

Definition init : state :=
  (0x67452301, 0xEFCDAB89, 0x98BADCFE, 0x10325476, 0xC3D2E1F0).

Definition word_bytes (w : N) : bytes :=
  [w / 16777216; (w / 65536) mod 256; (w / 256) mod 256; w mod 256].

Definition digest (msg : bytes) : bytes :=
  let p := pad msg in
  let '(h0, h1, h2, h3, h4) := blocks (length p / 64) p init in
  flat_map word_bytes [h0; h1; h2; h3; h4].

End Sha1.

Definition int_from_bytes (bs : bytes) : N :=
  fold_left (fun acc b => acc * 256 + b) bs 0.

Definition hex_digit (d : N) : N := if d <? 10 then 0x30 + d else 0x57 + d.

(** ['%032x' % n]. *)
Definition hex32 (n : N) : pystr :=
  map (fun i => hex_digit ((n / 16 ^ N.of_nat i) mod 16)) (rev (seq 0 32)).

(** [uuid.NAMESPACE_DNS], 6ba7b810-9dad-11d1-80b4-00c04fd430c8. *)
Definition NAMESPACE_DNS : bytes :=
  [0x6b; 0xa7; 0xb8; 0x10; 0x9d; 0xad; 0x11; 0xd1;
   0x80; 0xb4; 0x00; 0xc0; 0x4f; 0xd4; 0x30; 0xc8].

(** [str(uuid.uuid5(namespace, name))]. *)
Definition uuid5 (namespace : bytes) (name : pystr) : pystr :=
  let hash := Sha1.digest (namespace ++ utf8_encode name) in
  let int0 := int_from_bytes (firstn 16 hash) in
  let int1 := N.lor (N.ldiff int0 (N.shiftl 0xc000 48)) (N.shiftl 0x8000 48) in
  let int2 := N.lor (N.ldiff int1 (N.shiftl 0xf000 64)) (N.shiftl 5 76) in
  let hex := hex32 int2 in
  firstn 8 hex ++ [0x2D] ++ firstn 4 (skipn 8 hex) ++ [0x2D]
    ++ firstn 4 (skipn 12 hex) ++ [0x2D] ++ firstn 4 (skipn 16 hex) ++ [0x2D]
    ++ skipn 20 hex.

(** ** Literals of the source *)

Definition UNDERSCORE : N := 0x5F.
Definition SPACE : N := 0x20.
Definition DOT : N := 0x2E.
Definition SLASH : N := 0x2F.
Definition BACKSLASH : N := 0x5C.

Definition s_unknown : pystr := Eval vm_compute in u8 "unknown".
Definition s_example : pystr := Eval vm_compute in u8 "example".
Definition s_google : pystr := Eval vm_compute in u8 "google".
Definition s_yandex : pystr := Eval vm_compute in u8 "yandex".
Definition s_both : pystr := Eval vm_compute in u8 "both".
Definition s_diseases : pystr := Eval vm_compute in u8 "diseases".
Definition s_pests : pystr := Eval vm_compute in u8 "pests".
Definition s_weeds : pystr := Eval vm_compute in u8 "weeds".
Definition s_image_slash : pystr := Eval vm_compute in u8 "image/".
Definition s_image_jpeg : pystr := Eval vm_compute in u8 "image/jpeg".
Definition s_image_png : pystr := Eval vm_compute in u8 "image/png".
Definition s_image_webp : pystr := Eval vm_compute in u8 "image/webp".
Definition s_image_gif : pystr := Eval vm_compute in u8 "image/gif".
Definition s_jpg : pystr := Eval vm_compute in u8 "jpg".
Definition s_png : pystr := Eval vm_compute in u8 "png".
Definition s_webp : pystr := Eval vm_compute in u8 "webp".
Definition s_gif : pystr := Eval vm_compute in u8 "gif".
Definition s_dot_jpg : pystr := Eval vm_compute in u8 ".jpg".
Definition s_https : pystr := Eval vm_compute in u8 "https://".
Definition s_orig_url : pystr :=
  Eval vm_compute in [0x22] ++ u8 "orig_url" ++ [0x22; 0x3A; 0x22].

(** The list [['.jpg', '.jpeg', '.png', '.webp']] of both adapters and of
    the acquisition loop; the alternation [jpg|jpeg|png|webp] of both
    patterns lists the same extensions in the same order. *)
Definition IMAGE_EXTS : list pystr :=
  Eval vm_compute in map u8 [".jpg"; ".jpeg"; ".png"; ".webp"]%string.

Definition t_disease : pystr := Eval vm_compute in u8 " болезнь ".
Definition t_pest : pystr := Eval vm_compute in u8 " вредитель ".
Definition t_photo : pystr := Eval vm_compute in u8 " фото".
Definition t_photo_hq : pystr := Eval vm_compute in u8 " фото высокое качество".
Definition t_photo_macro : pystr := Eval vm_compute in u8 " фото макро".

Definition google_prefix : pystr :=
  Eval vm_compute in u8 "https://www.google.com/search?q=".
Definition google_suffix : pystr := Eval vm_compute in u8 "&tbm=isch&tbs=isz:l".
Definition yandex_prefix : pystr :=
  Eval vm_compute in u8 "https://yandex.ru/images/search?text=".

(** ** CSV file names: [extract_culture_risk_info] *)

(** [s.split('_')]. *)
Fixpoint split_on (sep : N) (s : pystr) : list pystr :=
  match s with
  | [] => [[]]
  | c :: r =>
    match split_on sep r with
    | p :: ps => if c =? sep then [] :: p :: ps else (c :: p) :: ps
    | [] => [[c]]
    end
  end.

(** Applied to the stem of the CSV file's name; the result is
    [(culture_ru, culture_en, risk_type)]. *)
Definition extract_culture_risk_info (file_stem : pystr) : pystr * pystr * pystr :=
  match split_on UNDERSCORE file_stem with
  | p0 :: p1 :: p2 :: p3 :: _ =>
    if pystr_eqb p0 s_example then (p2, p3, p1) else (p1, p2, p0)
  | p0 :: p1 :: p2 :: _ => (p1, p2, p0)
  | _ => (s_unknown, s_unknown, s_unknown)
  end.

(** ** Query builder: [create_search_query] *)

Definition create_search_query
    (risk_name culture risk_type search_engine : pystr) : pystr :=
  if pystr_eqb (lower search_engine) s_yandex then
    if pystr_eqb risk_type s_diseases
    then risk_name ++ t_disease ++ culture ++ t_photo_hq
    else risk_name ++ t_pest ++ culture ++ t_photo_macro
  else
    if pystr_eqb risk_type s_diseases
    then risk_name ++ t_disease ++ culture ++ t_photo
    else risk_name ++ t_pest ++ culture ++ t_photo.

(** The alternative query of [process_risk_item]. *)
Definition alt_query (risk_name_ru culture_ru : pystr) : pystr :=
  risk_name_ru ++ [SPACE] ++ culture_ru ++ t_photo.

(** ** The world: network and operating system *)

Record response := Response {
  status : Z;
  content_type : pystr;  (* the Content-Type header, [''] when absent *)
  body : bytes
}.

(** [requests_get] and [urlopen] give [None] when the library call raises
    (time-out, connection failure, [HTTPError]); [requests_get] gives the
    status code and the text of the page otherwise.  [can_mkdir] and
    [can_open] tell whether [Path.mkdir] and [open(path, 'wb')] succeed. *)
Record world := World {
  DOWNLOAD_DIR : pystr;
  requests_get : pystr -> option (Z * pystr);
  urlopen : pystr -> option response;
  can_mkdir : pystr -> bool;
  can_open : pystr -> bool;
  yandex_importable : bool
}.

Inductive event :=
  | SearchRequest (url : pystr)
  | ImageRequest (url : pystr).

(** The file system (path to content; directories are implicit), the trace
    of network requests, and the downloads that [download_image] reports in
    its log, as (url, path written). *)
Record state := State {
  files : gmap pystr bytes;
  net : list event;
  saved : list (pystr * pystr)
}.

Definition exists_file (s : state) (p : pystr) : bool :=
  match files s !! p with Some _ => true | None => false end.

Definition write_file (p : pystr) (data : bytes) (s : state) : state :=
  State (<[p := data]> (files s)) (net s) (saved s).

Definition log_request (e : event) (s : state) : state :=
  State (files s) (net s ++ [e]) (saved s).

Definition log_saved (url p : pystr) (s : state) : state :=
  State (files s) (net s) (saved s ++ [(url, p)]).

Definition path_join (dir name : pystr) : pystr := dir ++ [SLASH] ++ name.

(** The entries of a directory, [dir.glob('*')]: the first path component
    below [dir] of every file stored under it. *)
Definition child_of (dir p : pystr) : option pystr :=
  if startswith (dir ++ [SLASH]) p then
    match split_on SLASH (skipn (length dir + 1) p) with
    | c :: _ => if pystr_eqb c [] then None else Some c
    | [] => None
    end
  else None.

Definition glob_star (fs : gmap pystr bytes) (dir : pystr) : gset pystr :=
  list_to_set (omap (child_of dir) (elements (dom fs))).

(** ** Source adapters *)

(** [urllib.parse.quote(s)] with the default [safe='/']. *)
Definition quote_byte (b : N) : pystr :=
  if in_range 0x30 0x39 b || in_range 0x41 0x5A b || in_range 0x61 0x7A b
     || (b =? 0x5F) || (b =? 0x2E) || (b =? 0x2D) || (b =? 0x7E) || (b =? 0x2F)
  then [b]
  else [0x25; N.b2n (9 <? b / 16) * 7 + 0x30 + b / 16;
              N.b2n (9 <? b mod 16) * 7 + 0x30 + b mod 16].

Definition quote (s : pystr) : pystr := flat_map quote_byte (utf8_encode s).

(** [\.(?:jpg|jpeg|png|webp)] at the head of [r]. *)
Definition match_ext (r : pystr) : option pystr :=
  find (fun e => startswith e r) IMAGE_EXTS.

Definition is_quote (c : N) : bool := (c =? 0x22) || (c =? 0x27).
Definition is_dquote (c : N) : bool := c =? 0x22.

Fixpoint take_until (stop : N -> bool) (s : pystr) : pystr :=
  match s with
  | [] => []
  | c :: r => if stop c then [] else c :: take_until stop r
  end.

(** The greedy [[^...]+] followed by the extension: of all the places in the
    run where an extension starts after at least one character, the last. *)
Fixpoint last_ext (pre_rev r : pystr) (best : option pystr) : option pystr :=
  match r with
  | [] => best
  | c :: r' =>
    let best' :=
      match pre_rev, match_ext r with
      | _ :: _, Some e => Some (rev pre_rev ++ e)
      | _, _ => best
      end in
    last_ext (c :: pre_rev) r' best'
  end.

(** A match at the head of [s] of the Google pattern: [https://], one or
    more characters other than the two quote characters, a dot and one of
    jpg, jpeg, png, webp.  The result is the matched text and its length. *)
Definition google_match (s : pystr) : option (pystr * nat) :=
  if startswith s_https s then
    match last_ext [] (take_until is_quote (skipn 8 s)) None with
    | Some m => Some (s_https ++ m, (8 + length m)%nat)
    | None => None
    end
  else None.

(** A match at the head of [s] of the Yandex pattern: the quoted key
    orig_url, a colon, and between double quotes the group [https://], one
    or more characters other than the double quote, a dot and one of jpg,
    jpeg, png, webp.  The result is the group and the length of the whole
    match. *)
Definition yandex_match (s : pystr) : option (pystr * nat) :=
  if startswith (s_orig_url ++ s_https) s then
    let rest := skipn 20 s in
    let run := take_until is_dquote rest in
    if existsb (fun e => endswith e run && (length e <? length run)%nat) IMAGE_EXTS
       && startswith [0x22] (skipn (length run) rest)
    then Some (s_https ++ run, (20 + length run + 1)%nat)
    else None
  else None.

(** [re.findall]: matches are taken left to right and do not overlap. *)
Fixpoint findall (m : pystr -> option (pystr * nat)) (s : pystr) (skip : nat)
    : list pystr :=
  match s with
  | [] => []
  | _ :: s' =>
    match skip with
    | S k => findall m s' k
    | O =>
      match m s with
      | Some (g, len) => g :: findall m s' (len - 1)
      | None => findall m s' 0
      end
    end
  end.

(** [any(ext in url.lower() for ext in ['.jpg', '.jpeg', '.png', '.webp'])]. *)
Definition has_image_ext (url : pystr) : bool :=
  existsb (fun e => contains e (lower url)) IMAGE_EXTS.

(** The filtering loop of both adapters; [clean] is the identity for Google
    and removes the backslashes for Yandex. *)
Fixpoint collect_urls (clean : pystr -> pystr) (max_images : Z)
    (found_urls image_urls : list pystr) : list pystr :=
  match found_urls with
  | [] => image_urls
  | url :: rest =>
    let url := clean url in
    if has_image_ext url then
      let image_urls := image_urls ++ [url] in
      if (Z.of_nat (length image_urls) >=? max_images)%Z then image_urls
      else collect_urls clean max_images rest image_urls
    else collect_urls clean max_images rest image_urls
  end.

(** [response.raise_for_status()] raises for the 4xx and 5xx codes. *)
Definition raises_for_status (st : Z) : bool := ((400 <=? st) && (st <? 600))%Z.

Definition search_adapter (search_url : pystr -> pystr)
    (m : pystr -> option (pystr * nat)) (clean : pystr -> pystr)
    (w : world) (query : pystr) (max_images : Z) (s : state)
    : list pystr * state :=
  let url := search_url query in
  let s := log_request (SearchRequest url) s in
  match requests_get w url with
  | None => ([], s)
  | Some (st, text) =>
    if raises_for_status st then ([], s)
    else (collect_urls clean max_images (findall m text 0) [], s)
  end.

Definition get_google_image_urls :=
  search_adapter (fun q => google_prefix ++ quote q ++ google_suffix)
                 google_match (fun u => u).

Definition get_yandex_image_urls :=
  search_adapter (fun q => yandex_prefix ++ quote q)
                 yandex_match (remove_char BACKSLASH).

(** ** Fetcher: [download_image] *)

(** The extension chosen from the content type, ['jpg'] by default. *)
Definition extension_of (content_type : pystr) : pystr :=
  let ct := lower content_type in
  if contains s_image_jpeg ct then s_jpg
  else if contains s_image_png ct then s_png
  else if contains s_image_webp ct then s_webp
  else if contains s_image_gif ct then s_gif
  else s_jpg.

(** The path that is written: [save_path] unless its lower-case form does
    not end with the extension of the content type. *)
Definition resolve_path (save_path extension : pystr) : pystr :=
  if negb (endswith ([DOT] ++ extension) (lower save_path))
  then rsplit1_head DOT save_path ++ [DOT] ++ extension
  else save_path.

(** The file is opened for writing, which creates or truncates it, before
    the payload is read and measured. *)
Definition download_image (w : world) (url save_path : pystr) (s : state)
    : bool * state :=
  let s := log_request (ImageRequest url) s in
  match urlopen w url with
  | None => (false, s)
  | Some r =>
    if (status r =? 200)%Z then
      if negb (startswith s_image_slash (content_type r)) then (false, s)
      else
        let save_path := resolve_path save_path (extension_of (content_type r)) in
        if can_open w save_path then
          let s := write_file save_path [] s in
          let image_data := body r in
          if (length image_data <? 1000)%nat then (false, s)
          else (true, log_saved url save_path (write_file save_path image_data s))
        else (false, s)
    else (false, s)
  end.

(** ** Acquisition: [process_risk_item] *)

(** [item.get(key, '')] on a row of [csv.DictReader]. *)
Definition item_get (item : gmap string pystr) (key : string) : pystr :=
  default [] (item !! key).

(** The English name used for the directory and the seed: the stripped
    [english_name], or the cleaned local name when that is empty. *)
Definition english_name_of (item : gmap string pystr) : pystr :=
  let risk_name_ru := strip (item_get item "name") in
  let risk_name_en := strip (item_get item "english_name") in
  if pystr_eqb risk_name_en [] then
    let risk_name_ru_clean :=
      List.filter (fun c => is_word c || is_space c) risk_name_ru in
    lower (replace_char SPACE UNDERSCORE risk_name_ru_clean)
  else risk_name_en.

Definition risk_dir_name (risk_name_en : pystr) : pystr :=
  lower (replace_char SPACE UNDERSCORE risk_name_en).

Definition risk_dir_of (w : world) (risk_type culture_en risk_name_en : pystr)
    : pystr :=
  path_join (path_join (path_join (DOWNLOAD_DIR w) risk_type) culture_en)
            (risk_dir_name risk_name_en).

(** The seed and the GUID of the acquisition loop. *)
Definition guid_seed (risk_type culture_en risk_name_en : pystr) : pystr :=
  lower (join3 risk_type culture_en risk_name_en).

Definition derive_guid (risk_type culture_en risk_name_en : pystr) : pystr :=
  uuid5 NAMESPACE_DNS (guid_seed risk_type culture_en risk_name_en).

Definition item_guid (item : gmap string pystr)
    (risk_type culture_en risk_name_en : pystr) : pystr :=
  match item !! "guid"%string with
  | Some g => g
  | None => derive_guid risk_type culture_en risk_name_en
  end.

(** The extension taken from the URL, ['.jpg'] unless it is one of the four
    image extensions. *)
Definition file_ext_of (url : pystr) : pystr :=
  let file_ext := splitext_ext url in
  if pystr_eqb file_ext []
     || negb (existsb (pystr_eqb (lower file_ext)) IMAGE_EXTS)
  then s_dot_jpg else file_ext.

Definition file_name (risk_type culture_en guid : pystr) (file_number : N)
    (file_ext : pystr) : pystr :=
  risk_type ++ [UNDERSCORE] ++ lower culture_en ++ [UNDERSCORE] ++ guid
    ++ [UNDERSCORE] ++ format_02d file_number ++ file_ext.

(** What the loop of [process_risk_item] reads but does not change. *)
Record loop_env := LoopEnv {
  env_risk_type : pystr;
  env_culture_en : pystr;
  env_guid : pystr;
  env_risk_dir : pystr;
  env_existing : nat;       (* [len(existing_images)] *)
  env_max_images : Z
}.

Definition save_path_of (e : loop_env) (i : nat) (url : pystr) : pystr :=
  path_join (env_risk_dir e)
    (file_name (env_risk_type e) (env_culture_en e) (env_guid e)
               (N.of_nat i + N.of_nat (env_existing e) + 1) (file_ext_of url)).

(** [for i, url in enumerate(image_urls)], from index [i] on; the result is
    [downloads_count] and the state. *)
Fixpoint download_loop (w : world) (e : loop_env) (i : nat)
    (image_urls : list pystr) (downloads_count : Z) (s : state) : Z * state :=
  match image_urls with
  | [] => (downloads_count, s)
  | url :: rest =>
    if (Z.of_nat (env_existing e) + downloads_count >=? env_max_images e)%Z
    then (downloads_count, s)
    else
      let save_path := save_path_of e i url in
      if exists_file s save_path
      then download_loop w e (S i) rest downloads_count s
      else
        let '(ok, s) := download_image w url save_path s in
        download_loop w e (S i) rest
          (if ok then downloads_count + 1 else downloads_count)%Z s
  end.

(** [image_urls[:n]]. *)
Definition slice_to (n : Z) (l : list pystr) : list pystr :=
  if (0 <=? n)%Z then firstn (Z.to_nat n) l
  else firstn (length l - Z.to_nat (- n)) l.

(** The merge of the two sources for the engine ['both']. *)
Fixpoint interleave (yandex_urls google_urls : list pystr) : list pystr :=
  match yandex_urls, google_urls with
  | y :: ys, g :: gs => y :: g :: interleave ys gs
  | [], gs => gs
  | ys, [] => ys
  end.

(** The candidate URLs of the primary query. *)
Definition search_urls (w : world) (search_engine query : pystr)
    (max_images : Z) (s : state) : list pystr * state :=
  let engine := lower search_engine in
  if pystr_eqb engine s_google then get_google_image_urls w query max_images s
  else if pystr_eqb engine s_yandex then
    if yandex_importable w then get_yandex_image_urls w query max_images s
    else get_google_image_urls w query max_images s
  else if pystr_eqb engine s_both then
    if yandex_importable w then
      let '(yandex_urls, s) := get_yandex_image_urls w query (max_images / 2) s in
      let '(google_urls, s) := get_google_image_urls w query (max_images / 2) s in
      (slice_to max_images (interleave yandex_urls google_urls), s)
    else get_google_image_urls w query max_images s
  else get_google_image_urls w query max_images s.

(** The candidate URLs of the alternative query. *)
Definition search_urls_alt (w : world) (search_engine query : pystr)
    (max_images : Z) (s : state) : list pystr * state :=
  if pystr_eqb (lower search_engine) s_yandex then
    if yandex_importable w then get_yandex_image_urls w query max_images s
    else get_google_image_urls w query max_images s
  else get_google_image_urls w query max_images s.

(** [process_risk_item] returns nothing; the model returns the final state
    and, when the loop was reached, its [downloads_count]. *)
Definition process_risk_item (w : world) (item : gmap string pystr)
    (culture_ru culture_en risk_type search_engine : pystr) (max_images : Z)
    (s : state) : option Z * state :=
  let risk_name_ru := strip (item_get item "name") in
  if pystr_eqb risk_name_ru [] then (None, s)
  else
    let risk_name_en := english_name_of item in
    let risk_dir := risk_dir_of w risk_type culture_en risk_name_en in
    if negb (can_mkdir w risk_dir) then (None, s)
    else
      let existing := size (glob_star (files s) risk_dir) in
      if (Z.of_nat existing >=? max_images)%Z then (None, s)
      else
        let query :=
          create_search_query risk_name_ru culture_ru risk_type search_engine in
        let '(image_urls, s) := search_urls w search_engine query max_images s in
        let '(image_urls, s) :=
          match image_urls with
          | [] => search_urls_alt w search_engine
                    (alt_query risk_name_ru culture_ru) max_images s
          | _ => (image_urls, s)
          end in
        match image_urls with
        | [] => (None, s)
        | _ =>
          let e := LoopEnv risk_type culture_en
                     (item_guid item risk_type culture_en risk_name_en)
                     risk_dir existing max_images in
          let '(n, s) := download_loop w e 0 image_urls 0 s in
          (Some n, s)
        end.

(** ** The GUID fall-back of [rename_file_according_to_pattern] *)

Definition risk_types : list pystr := [s_diseases; s_pests; s_weeds].

Definition is_risk_type (part : pystr) : bool :=
  existsb (pystr_eqb (lower part)) risk_types.

(** The loop over [path_parts] that finds the crop and the disease name. *)
Fixpoint culture_and_disease (path_parts : list pystr) : pystr * pystr :=
  match path_parts with
  | [] => (s_unknown, s_unknown)
  | part :: rest =>
    if is_risk_type part then
      match rest with
      | [] => culture_and_disease rest
      | c :: rest' =>
        (lower c, match rest' with d :: _ => lower d | [] => s_unknown end)
      end
    else culture_and_disease rest
  end.


(** ** Notions used to state the properties *)


(** The response to [url] passes the checks of [download_image]: status 200,
    an image content type, at least 1000 octets. *)
Definition accepted (w : world) (url : pystr) : bool :=
  match urlopen w url with
  | Some r =>
    (status r =? 200)%Z && startswith s_image_slash (content_type r)
    && negb (length (body r) <? 1000)%nat
  | None => false
  end.

(** The request for the page of results raised, or the page came with a
    4xx or 5xx status. *)
Definition request_failed (w : world) (search_url : pystr) : bool :=
  match requests_get w search_url with
  | Some (st, _) => raises_for_status st
  | None => true
  end.

Definition google_url (query : pystr) : pystr :=
  google_prefix ++ quote query ++ google_suffix.

Definition yandex_url (query : pystr) : pystr := yandex_prefix ++ quote query.

(** The URL ends with one of the four image extensions. *)
Definition ends_with_image_ext (url : pystr) : bool :=
  existsb (fun e => endswith e url) IMAGE_EXTS.

(** The number [NN] read back from a stored path: the decimal digits
    between the last underscore and the last dot. *)
Definition after_last (sep : N) (s : pystr) : pystr :=
  rev (take_until (N.eqb sep) (rev s)).

Definition is_digit (c : N) : bool := in_range 0x30 0x39 c.

Definition digit_value (a c : N) : N := 10 * a + (c - 0x30).

Definition parse_decimal (d : pystr) : option N :=
  if forallb is_digit d && negb (pystr_eqb d [])
  then Some (fold_left digit_value d 0)
  else None.

Definition embedded_number (path : pystr) : option N :=
  parse_decimal (after_last UNDERSCORE (rsplit1_head DOT path)).

(** The file number of candidate [i] of the loop. *)
Definition file_number (e : loop_env) (i : nat) : N :=
  N.of_nat i + N.of_nat (env_existing e) + 1.

(** The names of the loop's candidates, from index [i] on, whose requested
    path is already a file of [fs]. *)
Fixpoint blocked_names (fs : gmap pystr bytes) (e : loop_env) (i : nat)
    (image_urls : list pystr) : list pystr :=
  match image_urls with
  | [] => []
  | url :: rest =>
    let name := file_name (env_risk_type e) (env_culture_en e) (env_guid e)
                          (file_number e i) (file_ext_of url) in
    match fs !! path_join (env_risk_dir e) name with
    | Some _ => name :: blocked_names fs e (S i) rest
    | None => blocked_names fs e (S i) rest
    end
  end.

(** The risk type, the crop and the GUID are plain names, without a path
    separator. *)
Definition plain_env (e : loop_env) : Prop :=
  ~ In SLASH (env_risk_type e) /\ ~ In SLASH (env_culture_en e)
  /\ ~ In SLASH (env_guid e).

(** ** Yandex first, then Google: [get_images_with_fallback] *)


(** ** Batches: [process_csv_file] and [main] *)

(** The loop of [process_csv_file] over the rows read from the table; the
    result is [successful_items] and the state. *)
Fixpoint process_items (w : world) (culture_ru culture_en risk_type
    search_engine : pystr) (max_images : Z) (data : list (gmap string pystr))
    (successful_items : nat) (s : state) : nat * state :=
  match data with
  | [] => (successful_items, s)
  | item :: rest =>
    let '(_, s) := process_risk_item w item culture_ru culture_en risk_type
                     search_engine max_images s in
    process_items w culture_ru culture_en risk_type search_engine max_images
                  rest (S successful_items) s
  end.

(** [process_csv_file], given the stem of the file's name and the rows that
    [read_csv_data] returns for it. *)
Definition process_csv_file (w : world) (file_stem : pystr)
    (data : list (gmap string pystr)) (search_engine : pystr) (max_images : Z)
    (s : state) : nat * state :=
  let '(culture_ru, culture_en, risk_type) :=
    extract_culture_risk_info file_stem in
  process_items w culture_ru culture_en risk_type search_engine max_images
                data 0 s.




(** ** Paths: [os.path] of [posixpath] *)

(** [sep.join(parts)]. *)
Fixpoint join_with (sep : N) (parts : list pystr) : pystr :=
  match parts with
  | [] => []
  | [p] => p
  | p :: rest => p ++ sep :: join_with sep rest
  end.

Fixpoint drop_slashes (r : pystr) : pystr :=
  match r with
  | c :: r' => if c =? SLASH then drop_slashes r' else r
  | [] => []
  end.

(** [os.path.dirname(p)]. *)
Definition posix_dirname (p : pystr) : pystr :=
  let head := firstn (length p - length (basename_rev (rev p))) p in
  if forallb (fun c => c =? SLASH) head then head
  else rev (drop_slashes (rev head)).

Definition s_dot : pystr := [DOT].
Definition s_dotdot : pystr := [DOT; DOT].

(** The loop of [os.path.normpath] over the components; [new_comps] is kept
    in reverse. *)
Fixpoint norm_comps (initial_slashes : nat) (comps new_comps : list pystr)
    : list pystr :=
  match comps with
  | [] => rev new_comps
  | comp :: rest =>
    if pystr_eqb comp [] || pystr_eqb comp s_dot
    then norm_comps initial_slashes rest new_comps
    else if negb (pystr_eqb comp s_dotdot)
            || ((initial_slashes =? 0)%nat
                && match new_comps with [] => true | _ => false end)
            || match new_comps with
               | last :: _ => pystr_eqb last s_dotdot
               | [] => false
               end
    then norm_comps initial_slashes rest (comp :: new_comps)
    else norm_comps initial_slashes rest (tl new_comps)
  end.

(** [os.path.normpath(path)]. *)
Definition normpath (path : pystr) : pystr :=
  if pystr_eqb path [] then s_dot
  else
    let initial_slashes :=
      if startswith [SLASH] path then
        if startswith [SLASH; SLASH] path
           && negb (startswith [SLASH; SLASH; SLASH] path)
        then 2%nat else 1%nat
      else 0%nat in
    let comps := norm_comps initial_slashes (split_on SLASH path) [] in
    let path := repeat SLASH initial_slashes ++ join_with SLASH comps in
    if pystr_eqb path [] then s_dot else path.

(** [os.path.join(a, b)]. *)
Definition posix_join (a b : pystr) : pystr :=
  if startswith [SLASH] b then b
  else if pystr_eqb a [] || endswith [SLASH] a then a ++ b
  else a ++ SLASH :: b.

(** ** Converter: [convert_webp_to_jpg.py] *)

(** [s.replace(old, new)] for a non-empty [old]: occurrences are replaced
    from left to right and do not overlap. *)
Fixpoint replace_from (old new s : pystr) (skip : nat) : pystr :=
  match s with
  | [] => []
  | c :: r =>
    match skip with
    | S k => replace_from old new r k
    | O =>
      if startswith old s
      then new ++ replace_from old new r (length old - 1)
      else c :: replace_from old new r 0
    end
  end.

Definition replace (old new s : pystr) : pystr := replace_from old new s 0.

Definition s_dot_webp : pystr := Eval vm_compute in u8 ".webp".
Definition s_dot_WEBP : pystr := Eval vm_compute in u8 ".WEBP".

(** The imaging library and the operating system, for the converter:
    [to_jpeg] is the JPEG encoding of an image file's content, [None] when
    the library raises; [can_save], [can_remove] and [can_rename] tell
    whether [img.save], [os.remove] and [os.rename] succeed. *)
Record imaging := Imaging {
  to_jpeg : bytes -> option bytes;
  can_save : pystr -> bool;
  can_remove : pystr -> bool;
  can_rename : pystr -> pystr -> bool
}.

Definition jpg_path_of (file_path : pystr) : pystr :=
  replace s_dot_WEBP s_dot_jpg (replace s_dot_webp s_dot_jpg file_path).

(** [convert_webp_to_jpg(file_path, delete_original)]: the path returned,
    [None] for Python's [None], and the file system.  When [os.remove]
    raises, the JPEG file has been written and [None] is returned. *)
Definition convert_webp_to_jpg (im : imaging) (file_path : pystr)
    (delete_original : bool) (fs : gmap pystr bytes)
    : option pystr * gmap pystr bytes :=
  if negb (endswith s_dot_webp (lower file_path)) then (None, fs)
  else
    match fs !! file_path with
    | None => (None, fs)
    | Some data =>
      let jpg_path := jpg_path_of file_path in
      match to_jpeg im data with
      | None => (None, fs)
      | Some jpg =>
        if can_save im jpg_path then
          let fs := <[jpg_path := jpg]> fs in
          if delete_original then
            if can_remove im file_path
            then (Some jpg_path, delete file_path fs)
            else (None, fs)
          else (Some jpg_path, fs)
        else (None, fs)
      end
    end.

Definition is_hex (c : N) : bool := in_range 0x30 0x39 c || in_range 0x61 0x66 c.

(** The shape of [guid_pattern]: true for a digit of [[0-9a-f]], false for
    a hyphen. *)
Definition guid_shape : list bool :=
  repeat true 8 ++ [false] ++ repeat true 4 ++ [false] ++ repeat true 4
    ++ [false] ++ repeat true 4 ++ [false] ++ repeat true 12.

Fixpoint has_shape (shape : list bool) (s : pystr) : bool :=
  match shape, s with
  | [], _ => true
  | b :: shape', c :: s' =>
    (if b then is_hex c else c =? 0x2D) && has_shape shape' s'
  | _ :: _, [] => false
  end.

(** [re.search(guid_pattern, s)]: the leftmost match. *)
Fixpoint guid_search (s : pystr) : option pystr :=
  if has_shape guid_shape s then Some (firstn 36 s)
  else match s with
       | [] => None
       | _ :: r => guid_search r
       end.

Fixpoint span (p : N -> bool) (s : pystr) : pystr * pystr :=
  match s with
  | c :: r => if p c then let '(a, b) := span p r in (c :: a, b) else ([], s)
  | [] => ([], [])
  end.

Definition is_lower_letter (c : N) : bool := in_range 0x61 0x7A c.

(** The class [\d] of a [str] pattern: the decimal digits of Unicode
    (category Nd, Unicode 14.0), each run given by its first character and
    its length. *)
Definition decimal_runs : list (N * N) :=
  [(0x30, 10); (0x660, 10); (0x6F0, 10); (0x7C0, 10); (0x966, 10);
   (0x9E6, 10); (0xA66, 10); (0xAE6, 10); (0xB66, 10); (0xBE6, 10);
   (0xC66, 10); (0xCE6, 10); (0xD66, 10); (0xDE6, 10); (0xE50, 10);
   (0xED0, 10); (0xF20, 10); (0x1040, 10); (0x1090, 10); (0x17E0, 10);
   (0x1810, 10); (0x1946, 10); (0x19D0, 10); (0x1A80, 10); (0x1A90, 10);
   (0x1B50, 10); (0x1BB0, 10); (0x1C40, 10); (0x1C50, 10); (0xA620, 10);
   (0xA8D0, 10); (0xA900, 10); (0xA9D0, 10); (0xA9F0, 10); (0xAA50, 10);
   (0xABF0, 10); (0xFF10, 10); (0x104A0, 10); (0x10D30, 10); (0x11066, 10);
   (0x110F0, 10); (0x11136, 10); (0x111D0, 10); (0x112F0, 10); (0x11450, 10);
   (0x114D0, 10); (0x11650, 10); (0x116C0, 10); (0x11730, 10); (0x118E0, 10);
   (0x11950, 10); (0x11C50, 10); (0x11D50, 10); (0x11DA0, 10); (0x16A60, 10);
   (0x16AC0, 10); (0x16B50, 10); (0x1D7CE, 50); (0x1E140, 10); (0x1E2F0, 10);
   (0x1E950, 10); (0x1FBF0, 10)].

Definition is_decimal (c : N) : bool :=
  existsb (fun '(first, len) => in_range first (first + len - 1) c)
          decimal_runs.

(** The text after an underscore is one or more digits, a dot, one or more
    letters of [[a-z]] and the end of the string, or a newline that ends
    it; the result is the digits. *)
Definition number_tail (r : pystr) : option pystr :=
  let '(ds, r1) := span is_decimal r in
  match ds, r1 with
  | _ :: _, c :: r2 =>
    if c =? DOT then
      let '(ls, r3) := span is_lower_letter r2 in
      match ls with
      | _ :: _ =>
        if pystr_eqb r3 [] || pystr_eqb r3 [0x0A] then Some ds else None
      | [] => None
      end
    else None
  | _, _ => None
  end.

(** [re.search(r'_(\d+)\.[a-z]+$', filename)], group 1. *)
Fixpoint number_match (filename : pystr) : option pystr :=
  match filename with
  | [] => None
  | c :: r =>
    match (if c =? UNDERSCORE then number_tail r else None) with
    | Some ds => Some ds
    | None => number_match r
    end
  end.

(** [rename_file_according_to_pattern(file_path)]: the path returned and
    the file system.  When the name carries no number the source calls
    [random.randint], and [random] is not imported in this module: the
    [NameError] is caught and the path is returned as it was given. *)
Definition rename_file_according_to_pattern (im : imaging) (file_path : pystr)
    (fs : gmap pystr bytes) : pystr * gmap pystr bytes :=
  let directory := posix_dirname file_path in
  let filename := basename file_path in
  let path_parts := split_on SLASH (normpath directory) in
  let risk_type := default s_unknown (find is_risk_type path_parts) in
  let '(culture, disease_name) := culture_and_disease path_parts in
  let guid :=
    match guid_search file_path with
    | Some g => g
    | None =>
      match guid_search directory with
      | Some g => g
      | None => uuid5 NAMESPACE_DNS (lower (join3 risk_type culture disease_name))
      end
    end in
  match number_match filename with
  | None => (file_path, fs)
  | Some number =>
    let extension :=
      if pystr_eqb (splitext_ext filename) [] then s_dot_jpg
      else splitext_ext filename in
    let new_filename :=
      risk_type ++ [UNDERSCORE] ++ culture ++ [UNDERSCORE] ++ guid
        ++ [UNDERSCORE] ++ number ++ extension in
    let new_path := posix_join directory new_filename in
    match fs !! file_path with
    | None => (file_path, fs)
    | Some data =>
      if can_rename im file_path new_path
      then (new_path, <[new_path := data]> (delete file_path fs))
      else (file_path, fs)
    end
  end.

(** The directory tree, for [process_directory]: [path_exists] is
    [os.path.exists]; [walk fs d] is what [os.walk(d)] yields on the file
    system [fs], each directory with the names of its files; [listdir fs d]
    is [os.listdir(d)]. *)
Record tree := Tree {
  path_exists : pystr -> bool;
  walk : gmap pystr bytes -> pystr -> list (pystr * list pystr);
  listdir : gmap pystr bytes -> pystr -> list pystr
}.

Definition s_dot_jpeg : pystr := Eval vm_compute in u8 ".jpeg".

Definition is_webp (file : pystr) : bool := endswith s_dot_webp (lower file).

(** [files_to_process]. *)
Definition webp_files (t : tree) (fs : gmap pystr bytes) (directory : pystr)
    (recursive : bool) : list pystr :=
  if recursive then
    flat_map (fun '(root, files) =>
                map (posix_join root) (List.filter is_webp files))
             (walk t fs directory)
  else map (posix_join directory) (List.filter is_webp (listdir t fs directory)).

Definition is_unnumbered_jpg (file : pystr) : bool :=
  (endswith s_dot_jpg (lower file) || endswith s_dot_jpeg (lower file))
  && negb (match number_match file with Some _ => true | None => false end).

(** [jpg_files]. *)
Definition jpg_files (t : tree) (fs : gmap pystr bytes) (directory : pystr)
    (recursive : bool) : list pystr :=
  if recursive then
    flat_map (fun '(root, files) =>
                map (posix_join root) (List.filter is_unnumbered_jpg files))
             (walk t fs directory)
  else map (posix_join directory)
           (List.filter is_unnumbered_jpg (listdir t fs directory)).

(** The loop over [files_to_process]; an empty [jpg_path] counts as false
    in the test [if jpg_path]. *)
Fixpoint convert_pass (im : imaging) (rename : bool) (files : list pystr)
    (converted_count renamed_count : nat) (fs : gmap pystr bytes)
    : nat * nat * gmap pystr bytes :=
  match files with
  | [] => (converted_count, renamed_count, fs)
  | file_path :: rest =>
    match convert_webp_to_jpg im file_path true fs with
    | (Some jpg_path, fs1) =>
      if pystr_eqb jpg_path [] then
        convert_pass im rename rest converted_count renamed_count fs1
      else if rename then
        let '(new_path, fs2) :=
          rename_file_according_to_pattern im jpg_path fs1 in
        convert_pass im rename rest (S converted_count)
          (if pystr_eqb new_path jpg_path then renamed_count
           else S renamed_count) fs2
      else convert_pass im rename rest (S converted_count) renamed_count fs1
    | (None, fs1) =>
      convert_pass im rename rest converted_count renamed_count fs1
    end
  end.

(** The loop over [jpg_files]. *)
Fixpoint rename_pass (im : imaging) (files : list pystr) (renamed_count : nat)
    (fs : gmap pystr bytes) : nat * gmap pystr bytes :=
  match files with
  | [] => (renamed_count, fs)
  | jpg_path :: rest =>
    let '(new_path, fs1) := rename_file_according_to_pattern im jpg_path fs in
    rename_pass im rest
      (if pystr_eqb new_path jpg_path then renamed_count else S renamed_count)
      fs1
  end.

(** [process_directory(directory, rename, recursive)]: the two counts it
    logs, [None] when the directory does not exist, and the file system. *)
Definition process_directory (t : tree) (im : imaging) (directory : pystr)
    (rename recursive : bool) (fs : gmap pystr bytes)
    : option (nat * nat) * gmap pystr bytes :=
  if negb (path_exists t directory) then (None, fs)
  else
    let '(converted_count, renamed_count, fs1) :=
      convert_pass im rename (webp_files t fs directory recursive) 0 0 fs in
    if rename then
      let '(renamed_count, fs2) :=
        rename_pass im (jpg_files t fs1 directory recursive) renamed_count fs1 in
      (Some (converted_count, renamed_count), fs2)
    else (Some (converted_count, renamed_count), fs1).

(** ** Further notions used to state the properties *)

(** The text has the shape of a GUID: 36 characters, hexadecimal digits in
    lower case in groups of 8, 4, 4, 4 and 12 with hyphens between. *)
Definition is_guid (g : pystr) : bool :=
  has_shape guid_shape g && (length g =? 36)%nat.

(** The name is plain: no slash in it. *)
Definition plain (name : pystr) : Prop := ~ In SLASH name.

Definition is_image_request (e : event) : bool :=
  match e with ImageRequest _ => true | SearchRequest _ => false end.

Definition is_search_request (e : event) : bool :=
  match e with SearchRequest _ => true | ImageRequest _ => false end.

(** The request is a search on Yandex. *)
Definition is_yandex_request (e : event) : bool :=
  match e with
  | SearchRequest url => startswith yandex_prefix url
  | ImageRequest _ => false
  end.

(** The path lies below the directory. *)
Definition under (dir p : pystr) : bool := startswith (dir ++ [SLASH]) p.

(** * Properties *)

(** ** Strings *)

Lemma in_range_cases lo hi c :
  (lo <= c <= hi /\ in_range lo hi c = true)
  \/ ((c < lo \/ hi < c) /\ in_range lo hi c = false).
Proof.
  unfold in_range.
  destruct (N.leb_spec lo c), (N.leb_spec c hi); cbn [andb];
    [left | right ..]; split; try reflexivity; lia.
Qed.




Lemma lower_app s t : lower (s ++ t) = lower s ++ lower t.
Proof. apply map_app. Qed.


Lemma startswith_app p t : startswith p (p ++ t) = true.
Proof.
  induction p as [|a p IH]; [reflexivity|].
  cbn. rewrite N.eqb_refl. exact IH.
Qed.

Lemma startswith_inv p s : startswith p s = true -> exists t, s = p ++ t.
Proof.
  revert s. induction p as [|a p IH]; intros s H.
  - exists s. reflexivity.
  - destruct s as [|b s]; [discriminate|]. cbn in H.
    apply andb_prop in H. destruct H as [Hab Hps].
    apply N.eqb_eq in Hab. subst b.
    destruct (IH _ Hps) as [t ->]. exists t. reflexivity.
Qed.

Lemma endswith_app t p : endswith p (t ++ p) = true.
Proof. unfold endswith. rewrite rev_app_distr. apply startswith_app. Qed.

Lemma endswith_inv p s : endswith p s = true -> exists t, s = t ++ p.
Proof.
  unfold endswith. intros H. apply startswith_inv in H. destruct H as [t Ht].
  exists (rev t). apply (f_equal (@rev N)) in Ht.
  rewrite rev_involutive, rev_app_distr, rev_involutive in Ht. exact Ht.
Qed.

Lemma pystr_eqb_eq s t : pystr_eqb s t = true <-> s = t.
Proof. unfold pystr_eqb. apply bool_decide_eq_true. Qed.

Lemma pystr_eqb_neq s t : pystr_eqb s t = false <-> s <> t.
Proof. unfold pystr_eqb. apply bool_decide_eq_false. Qed.

(** ** Identity derivation *)




(** ** Query builder *)



(** ** Fetcher *)

Lemma extension_of_lower ct : lower (extension_of ct) = extension_of ct.
Proof.
  unfold extension_of.
  repeat match goal with |- context [if ?b then _ else _] => destruct b end;
    reflexivity.
Qed.

Lemma resolve_path_ext save_path ext :
  lower ext = ext ->
  endswith ([DOT] ++ ext) (lower (resolve_path save_path ext)) = true.
Proof.
  intros Hext. unfold resolve_path.
  destruct (endswith ([DOT] ++ ext) (lower save_path)) eqn:E; cbn [negb].
  - exact E.
  - rewrite !lower_app, Hext. change (lower [DOT]) with [DOT].
    rewrite app_assoc. rewrite <- (app_assoc _ [DOT] ext). apply endswith_app.
Qed.


Lemma download_image_net w url save_path s :
  net (snd (download_image w url save_path s)) = net s ++ [ImageRequest url].
Proof.
  unfold download_image.
  destruct (urlopen w url) as [r|]; [|reflexivity].
  destruct (status r =? 200)%Z; [|reflexivity].
  destruct (startswith s_image_slash (content_type r)); [|reflexivity].
  cbn [negb].
  destruct (can_open w _); [|reflexivity].
  destruct (length (body r) <? 1000)%nat; reflexivity.
Qed.



(** A png content type overrides the jpg extension of the requested path. *)
Example download_image_overrides_extension :
  let w := World [] (fun _ => None)
             (fun _ => Some (Response 200 (u8 "image/png") (repeat 7 1000)))
             (fun _ => true) (fun _ => true) true in
  let out := download_image w (u8 "https://e.com/a.jpg") (u8 "/d/rust_01.jpg")
               (State ∅ [] []) in
  fst out = true
  /\ files (snd out) !! u8 "/d/rust_01.png" = Some (repeat 7 1000)
  /\ files (snd out) !! u8 "/d/rust_01.jpg" = None.
Proof. vm_compute. repeat split; reflexivity. Qed.

(** C4 fails on the code.  A 500-octet image/jpeg payload makes the call
    return failure, but the destination was opened for writing before the
    payload was measured: an empty file is left behind. *)
Theorem C4_undersized_payload_leaves_empty_file :
  let w := World [] (fun _ => None)
             (fun _ => Some (Response 200 (u8 "image/jpeg") (repeat 0 500)))
             (fun _ => true) (fun _ => true) true in
  let p := u8 "/d/rust_01.jpg" in
  let s := State ∅ [] [] in
  let out := download_image w (u8 "https://e.com/a.jpg") p s in
  files s !! p = None /\ fst out = false /\ files (snd out) !! p = Some [].
Proof. vm_compute. repeat split; reflexivity. Qed.

(** The same for every undersized image payload: the call fails and its
    destination holds an empty file afterwards, whatever it held before. *)
Lemma download_image_undersized w url save_path s r :
  urlopen w url = Some r ->
  status r = 200%Z ->
  startswith s_image_slash (content_type r) = true ->
  can_open w (resolve_path save_path (extension_of (content_type r))) = true ->
  (length (body r) < 1000)%nat ->
  let out := download_image w url save_path s in
  fst out = false
  /\ files (snd out) !! resolve_path save_path (extension_of (content_type r))
     = Some [].
Proof.
  intros Hr Hst Hct Hopen Hlen out. subst out. unfold download_image.
  rewrite Hr, Hct, Hst. cbn [negb Z.eqb Pos.eqb]. rewrite Hopen.
  destruct (Nat.ltb_spec (length (body r)) 1000); [|lia].
  cbn. split; [reflexivity|]. apply lookup_insert_eq.
Qed.


(** ** Acquisition loop *)

(** C2.  When the risk directory already holds at least [max_images]
    entries, [process_risk_item] returns the state it was given: no request
    is added to the trace and no file is created, changed or removed. *)
Theorem C2_idempotent_rerun (w : world) (item : gmap string pystr)
    (culture_ru culture_en risk_type search_engine : pystr) (max_images : Z)
    (s : state) :
  (max_images
     <= Z.of_nat (size (glob_star (files s)
          (risk_dir_of w risk_type culture_en (english_name_of item)))))%Z ->
  process_risk_item w item culture_ru culture_en risk_type search_engine
                    max_images s = (None, s).
Proof.
  intros Hcap. unfold process_risk_item.
  destruct (pystr_eqb (strip (item_get item "name")) []); [reflexivity|].
  destruct (can_mkdir w _); cbn [negb]; [|reflexivity].
  destruct (Z.geb_spec
    (Z.of_nat (size (glob_star (files s)
       (risk_dir_of w risk_type culture_en (english_name_of item)))))
    max_images) as [_|Hlt]; [reflexivity | lia].
Qed.

Lemma C2_idempotent_rerun_witness :
  let w := World (u8 "/img") (fun _ => Some (200%Z, u8 "https://e.com/a.jpg"))
             (fun _ => Some (Response 200 (u8 "image/jpeg") (repeat 0 1000)))
             (fun _ => true) (fun _ => true) true in
  let item : gmap string pystr :=
    {[ "name"%string := u8 "Ржавчина"; "english_name"%string := u8 "rust" ]} in
  let s := State {[ u8 "/img/diseases/cereals/rust/a_01.jpg" := [1];
                    u8 "/img/diseases/cereals/rust/a_02.jpg" := [2];
                    u8 "/img/diseases/cereals/rust/a_03.png" := [3] ]} [] [] in
  process_risk_item w item (u8 "пшеница") (u8 "cereals") (u8 "diseases")
                    (u8 "google") 3 s = (None, s).
Proof.
  intros w item s. apply C2_idempotent_rerun.
  apply Z.leb_le. vm_compute. reflexivity.
Defined.




(** The count of downloads never passes the room left under the cap. *)
Lemma download_loop_count w e l :
  forall i n s n' s',
    download_loop w e i l n s = (n', s') ->
    (n <= n' /\ n' <= Z.max n (env_max_images e - Z.of_nat (env_existing e)))%Z.
Proof.
  induction l as [|url rest IH]; intros i n s n' s' H; cbn in H.
  - injection H as <- <-. lia.
  - destruct (Z.geb_spec (Z.of_nat (env_existing e) + n) (env_max_images e))
      as [Hge|Hlt].
    + injection H as <- <-. lia.
    + destruct (exists_file s (save_path_of e i url)).
      * apply IH in H. lia.
      * destruct (download_image w url (save_path_of e i url) s) as [ok s1].
        apply IH in H. destruct ok; lia.
Qed.

(** Never more: whenever [process_risk_item] reaches its loop, the number
    of downloads it counts is at most the cap minus the number of entries
    the directory had. *)
Lemma process_risk_item_never_more w item culture_ru culture_en risk_type
    search_engine max_images s n s' :
  process_risk_item w item culture_ru culture_en risk_type search_engine
                    max_images s = (Some n, s') ->
  (0 <= n
   <= max_images
      - Z.of_nat (size (glob_star (files s)
          (risk_dir_of w risk_type culture_en (english_name_of item)))))%Z.
Proof.
  unfold process_risk_item. intros H.
  destruct (pystr_eqb (strip (item_get item "name")) []); [discriminate|].
  destruct (can_mkdir w _); cbn [negb] in H; [|discriminate].
  destruct (Z.geb_spec
    (Z.of_nat (size (glob_star (files s)
       (risk_dir_of w risk_type culture_en (english_name_of item)))))
    max_images) as [Hge|Hlt]; [discriminate|].
  destruct (search_urls w search_engine _ max_images s) as [urls s1].
  destruct (match urls with
            | [] => search_urls_alt w search_engine _ max_images s1
            | _ :: _ => (urls, s1)
            end) as [urls2 s2].
  destruct urls2 as [|u urls2]; [discriminate|].
  destruct (download_loop w _ 0 (u :: urls2) 0 s2) as [k s3] eqn:E.
  injection H as <- <-.
  apply download_loop_count in E. cbn [env_max_images env_existing] in E. lia.
Qed.

(** ** Numbers embedded in file names *)

Lemma drop_through_app sep y z :
  ~ In sep y -> drop_through sep (y ++ sep :: z) = Some z.
Proof.
  induction y as [|c y IH]; intros Hy; cbn.
  - rewrite N.eqb_refl. reflexivity.
  - destruct (N.eqb_spec c sep) as [->|_].
    + exfalso. apply Hy. now left.
    + apply IH. intros Hin. apply Hy. now right.
Qed.

Lemma rsplit1_head_app sep a x :
  ~ In sep x -> rsplit1_head sep (a ++ sep :: x) = a.
Proof.
  intros Hx. unfold rsplit1_head.
  rewrite rev_app_distr. cbn [rev]. rewrite <- app_assoc. cbn [app].
  rewrite drop_through_app.
  - apply rev_involutive.
  - intros Hin. apply Hx. apply in_rev. exact Hin.
Qed.

Lemma take_until_app stop y c z :
  (forall d, In d y -> stop d = false) -> stop c = true ->
  take_until stop (y ++ c :: z) = y.
Proof.
  intros Hy Hc. induction y as [|d y IH]; cbn.
  - rewrite Hc. reflexivity.
  - rewrite (Hy d) by now left. f_equal. apply IH.
    intros d' Hd'. apply Hy. now right.
Qed.

Lemma after_last_app sep b d :
  ~ In sep d -> after_last sep (b ++ sep :: d) = d.
Proof.
  intros Hd. unfold after_last.
  rewrite rev_app_distr. cbn [rev]. rewrite <- app_assoc. cbn [app].
  rewrite take_until_app.
  - apply rev_involutive.
  - intros c Hc. apply N.eqb_neq. intros <-. apply Hd. apply in_rev. exact Hc.
  - apply N.eqb_refl.
Qed.

Lemma is_digit_mod n : is_digit (0x30 + n mod 10) = true.
Proof.
  unfold is_digit, in_range.
  pose proof (N.mod_upper_bound n 10 ltac:(discriminate)) as H.
  set (m := n mod 10) in *. clearbody m.
  apply andb_true_intro. split; apply N.leb_le; lia.
Qed.

Lemma digits_fuel_digits fuel : forall n acc,
  forallb is_digit acc = true -> forallb is_digit (digits_fuel fuel n acc) = true.
Proof.
  induction fuel as [|f IH]; intros n acc Hacc; cbn; [exact Hacc|].
  assert (Hacc' : forallb is_digit ((0x30 + n mod 10) :: acc) = true).
  { cbn [forallb]. rewrite is_digit_mod. exact Hacc. }
  destruct (n <? 10); [exact Hacc' | apply IH; exact Hacc'].
Qed.

Lemma digits_fuel_length fuel : forall n acc,
  (length acc < length (digits_fuel (S fuel) n acc))%nat.
Proof.
  induction fuel as [|f IH]; intros n acc.
  - cbn. destruct (n <? 10); cbn; lia.
  - change (digits_fuel (S (S f)) n acc)
      with (if n <? 10 then (0x30 + n mod 10) :: acc
            else digits_fuel (S f) (n / 10) ((0x30 + n mod 10) :: acc)).
    destruct (n <? 10); [cbn; lia|].
    specialize (IH (n / 10) ((0x30 + n mod 10) :: acc)). cbn [length] in IH. lia.
Qed.

Lemma digits_fuel_value fuel : forall n acc,
  n < 2 ^ N.of_nat fuel ->
  fold_left digit_value (digits_fuel fuel n acc) 0 = fold_left digit_value acc n.
Proof.
  induction fuel as [|f IH]; intros n acc Hn.
  - cbn in Hn. assert (n = 0) as -> by lia. reflexivity.
  - cbn [digits_fuel].
    rewrite Nat2N.inj_succ, N.pow_succ_r' in Hn.
    set (p := 2 ^ N.of_nat f) in *.
    destruct (N.ltb_spec n 10) as [Hlt|Hge].
    + cbn [fold_left]. unfold digit_value at 2.
      rewrite (N.mod_small n 10) by exact Hlt. f_equal. clear. lia.
    + rewrite IH.
      * cbn [fold_left]. f_equal. unfold digit_value.
        pose proof (N.div_mod n 10 ltac:(discriminate)) as Hdm.
        set (q := n / 10) in *. set (m := n mod 10) in *.
        clearbody q m. clear - Hdm. lia.
      * apply N.Div0.div_lt_upper_bound. fold p. clearbody p. clear - Hn. lia.
Qed.

Lemma decimal_bound n : n < 2 ^ N.of_nat (S (N.to_nat (N.log2 n))).
Proof.
  rewrite Nat2N.inj_succ, N2Nat.id.
  destruct (N.eq_dec n 0) as [->|Hn]; [reflexivity|].
  apply N.log2_spec. lia.
Qed.

Lemma parse_format_02d n : parse_decimal (format_02d n) = Some n.
Proof.
  assert (Hd : forallb is_digit (decimal n) = true)
    by (apply digits_fuel_digits; reflexivity).
  assert (Hv : fold_left digit_value (decimal n) 0 = n)
    by (unfold decimal; rewrite digits_fuel_value by apply decimal_bound;
        reflexivity).
  assert (Hl : (0 < length (decimal n))%nat)
    by (unfold decimal; pose proof (digits_fuel_length
          (N.to_nat (N.log2 n)) n []); cbn [length] in *; lia).
  unfold parse_decimal, format_02d.
  destruct (length (decimal n) <? 2)%nat.
  - cbn [forallb fold_left]. rewrite Hd. cbn. f_equal. exact Hv.
  - rewrite Hd. cbn [andb].
    destruct (decimal n) as [|c d] eqn:E; [cbn in Hl; lia|].
    cbn [pystr_eqb]. unfold pystr_eqb. rewrite bool_decide_eq_false_2 by discriminate.
    cbn [negb]. f_equal. exact Hv.
Qed.

Lemma format_02d_no_underscore n : ~ In UNDERSCORE (format_02d n).
Proof.
  assert (Hd : forallb is_digit (format_02d n) = true).
  { unfold format_02d.
    assert (forallb is_digit (decimal n) = true)
      by (apply digits_fuel_digits; reflexivity).
    destruct (length (decimal n) <? 2)%nat; [cbn; assumption | assumption]. }
  intros Hin. rewrite forallb_forall in Hd. apply Hd in Hin. discriminate.
Qed.

(** The number is read back from any path that ends with an underscore, the
    formatted number, a dot and a dot-free extension. *)
Lemma embedded_number_stored a n x :
  ~ In DOT x ->
  embedded_number ((a ++ [UNDERSCORE] ++ format_02d n) ++ DOT :: x) = Some n.
Proof.
  intros Hx. unfold embedded_number.
  rewrite rsplit1_head_app by exact Hx. cbn [app].
  rewrite after_last_app by apply format_02d_no_underscore.
  apply parse_format_02d.
Qed.

Lemma lower_cp_dot c : lower_cp c = DOT -> c = DOT.
Proof.
  unfold lower_cp, in_range, DOT.
  destruct (N.leb_spec 0x41 c), (N.leb_spec c 0x5A),
           (N.leb_spec 0x410 c), (N.leb_spec c 0x42F),
           (N.leb_spec 0x400 c), (N.leb_spec c 0x40F); cbn [andb]; lia.
Qed.

Lemma lower_dot_free s : ~ In DOT (lower s) -> ~ In DOT s.
Proof.
  intros H Hin. apply H. unfold lower.
  change DOT with (lower_cp DOT). apply in_map. exact Hin.
Qed.

Lemma file_ext_of_shape url :
  exists x, file_ext_of url = DOT :: x /\ ~ In DOT x.
Proof.
  unfold file_ext_of.
  destruct (pystr_eqb (splitext_ext url) []
            || negb (existsb (pystr_eqb (lower (splitext_ext url))) IMAGE_EXTS))
    eqn:E.
  - eexists. split; [reflexivity|]. cbn. intuition discriminate.
  - apply orb_false_elim in E. destruct E as [_ E].
    apply negb_false_iff in E. apply existsb_exists in E.
    destruct E as [ext [Hin Heq]]. apply pystr_eqb_eq in Heq.
    destruct (splitext_ext url) as [|c x]; [cbn in Heq; subst ext|].
    + cbn in Hin. intuition discriminate.
    + cbn [lower map] in Heq. exists x.
      assert (lower_cp c = DOT /\ ~ In DOT (lower x)) as [Hc Hx].
      { cbn in Hin. destruct Hin as [<-|[<-|[<-|[<-|[]]]]];
          injection Heq as Hc Hx; (split; [exact Hc|]);
          unfold lower; rewrite Hx; cbn; intuition discriminate. }
      apply lower_cp_dot in Hc. subst c. split; [reflexivity|].
      apply lower_dot_free. exact Hx.
Qed.

Lemma extension_of_dot_free ct : ~ In DOT (extension_of ct).
Proof.
  unfold extension_of.
  repeat match goal with |- context [if ?b then _ else _] => destruct b end;
    cbn; intuition discriminate.
Qed.

Lemma resolve_path_shape a x ext :
  ~ In DOT x -> ~ In DOT ext ->
  exists x', resolve_path (a ++ DOT :: x) ext = a ++ DOT :: x' /\ ~ In DOT x'.
Proof.
  intros Hx Hext. unfold resolve_path.
  destruct (negb _).
  - rewrite rsplit1_head_app by exact Hx. exists ext. split; [reflexivity|exact Hext].
  - exists x. split; [reflexivity|exact Hx].
Qed.

(** The file written for candidate [i] carries the number of candidate [i],
    whatever extension the content type imposes. *)
Lemma embedded_number_resolved e i url ct :
  embedded_number (resolve_path (save_path_of e i url) (extension_of ct))
    = Some (file_number e i).
Proof.
  destruct (file_ext_of_shape url) as [x [Hfe Hx]].
  unfold save_path_of, file_name, path_join. rewrite Hfe.
  fold (file_number e i).
  set (a := env_risk_dir e ++ [SLASH] ++ env_risk_type e ++ [UNDERSCORE]
             ++ lower (env_culture_en e) ++ [UNDERSCORE] ++ env_guid e).
  replace (env_risk_dir e ++ [SLASH] ++ env_risk_type e ++ [UNDERSCORE]
             ++ lower (env_culture_en e) ++ [UNDERSCORE] ++ env_guid e
             ++ [UNDERSCORE] ++ format_02d (file_number e i) ++ DOT :: x)
    with ((a ++ [UNDERSCORE] ++ format_02d (file_number e i)) ++ DOT :: x)
    by (subst a; rewrite <- !app_assoc; reflexivity).
  destruct (resolve_path_shape (a ++ [UNDERSCORE] ++ format_02d (file_number e i))
              x (extension_of ct) Hx (extension_of_dot_free ct))
    as [x' [-> Hx']].
  apply embedded_number_stored. exact Hx'.
Qed.

(** ** Sequence numbers *)



Lemma file_number_inj e i j : file_number e i = file_number e j -> i = j.
Proof. unfold file_number. lia. Qed.



(** ** Source adapters *)

Lemma findall_Forall (P : pystr -> Prop) m :
  (forall s g len, m s = Some (g, len) -> P g) ->
  forall s skip, Forall P (findall m s skip).
Proof.
  intros Hm s. induction s as [|c s IH]; intros skip; cbn; [constructor|].
  destruct skip as [|k]; [|apply IH].
  destruct (m (c :: s)) as [[g len]|] eqn:E; [|apply IH].
  constructor; [eapply Hm; exact E | apply IH].
Qed.

Lemma ends_with_image_ext_app t e :
  In e IMAGE_EXTS -> ends_with_image_ext (t ++ e) = true.
Proof.
  intros He. unfold ends_with_image_ext. apply existsb_exists.
  exists e. split; [exact He | apply endswith_app].
Qed.

Lemma ends_with_image_ext_inv u :
  ends_with_image_ext u = true -> exists t e, In e IMAGE_EXTS /\ u = t ++ e.
Proof.
  unfold ends_with_image_ext. intros H. apply existsb_exists in H.
  destruct H as [e [He Hu]]. apply endswith_inv in Hu. destruct Hu as [t ->].
  exists t, e. split; [exact He | reflexivity].
Qed.

Lemma last_ext_ends : forall r pre_rev best m,
  (forall b, best = Some b -> ends_with_image_ext b = true) ->
  last_ext pre_rev r best = Some m -> ends_with_image_ext m = true.
Proof.
  induction r as [|c r IH]; intros pre_rev best m Hbest H; cbn [last_ext] in H.
  - apply Hbest. exact H.
  - eapply IH; [|exact H].
    intros b Hb. destruct pre_rev as [|p pre]; [apply Hbest; exact Hb|].
    destruct (match_ext (c :: r)) as [e|] eqn:E; [|apply Hbest; exact Hb].
    injection Hb as <-. apply ends_with_image_ext_app.
    unfold match_ext in E. apply find_some in E. apply E.
Qed.

Lemma google_match_ends s g len :
  google_match s = Some (g, len) -> ends_with_image_ext g = true.
Proof.
  unfold google_match. destruct (startswith s_https s); [|discriminate].
  destruct (last_ext [] (take_until is_quote (skipn 8 s)) None) as [m|] eqn:E;
    [|discriminate].
  intros H. injection H as <- _.
  apply last_ext_ends in E; [|discriminate].
  apply ends_with_image_ext_inv in E. destruct E as [t [e [He ->]]].
  apply (ends_with_image_ext_app (s_https ++ t) e He).
Qed.

Lemma remove_char_image_ext u :
  ends_with_image_ext u = true ->
  ends_with_image_ext (remove_char BACKSLASH u) = true.
Proof.
  intros H. apply ends_with_image_ext_inv in H. destruct H as [t [e [He ->]]].
  unfold remove_char. rewrite List.filter_app.
  replace (List.filter (fun c => negb (c =? BACKSLASH)) e) with e.
  - apply ends_with_image_ext_app. exact He.
  - cbn in He. destruct He as [<-|[<-|[<-|[<-|[]]]]]; reflexivity.
Qed.

Lemma yandex_match_ends s g len :
  yandex_match s = Some (g, len) ->
  ends_with_image_ext (remove_char BACKSLASH g) = true.
Proof.
  unfold yandex_match.
  destruct (startswith (s_orig_url ++ s_https) s); [|discriminate].
  destruct (existsb _ IMAGE_EXTS && _) eqn:E; [|discriminate].
  intros H. injection H as <- _.
  apply andb_prop in E. destruct E as [E _].
  apply existsb_exists in E. destruct E as [e [He Hrun]].
  apply andb_prop in Hrun. destruct Hrun as [Hrun _].
  apply endswith_inv in Hrun. destruct Hrun as [t Hrun].
  apply remove_char_image_ext. rewrite Hrun.
  apply (ends_with_image_ext_app (s_https ++ t) e He).
Qed.

Lemma collect_urls_length clean max_images found : forall acc,
  (1 <= max_images)%Z -> (Z.of_nat (length acc) < max_images)%Z ->
  (Z.of_nat (length (collect_urls clean max_images found acc)) <= max_images)%Z.
Proof.
  induction found as [|u found IH]; intros acc Hmax Hacc; cbn [collect_urls];
    [lia|].
  destruct (has_image_ext (clean u)); [|apply IH; assumption].
  destruct (Z.geb_spec (Z.of_nat (length (acc ++ [clean u]))) max_images)
    as [Hge|Hlt].
  - rewrite length_app in *. cbn [length] in *. lia.
  - apply IH; assumption.
Qed.

Lemma collect_urls_Forall (P : pystr -> Prop) clean max_images found :
  Forall (fun u => P (clean u)) found ->
  forall acc, Forall P acc -> Forall P (collect_urls clean max_images found acc).
Proof.
  induction 1 as [|u found Hu _ IH]; intros acc Hacc; cbn [collect_urls];
    [exact Hacc|].
  assert (Hacc' : Forall P (acc ++ [clean u])).
  { apply Forall_app. split; [exact Hacc | constructor; [exact Hu | constructor]]. }
  destruct (has_image_ext (clean u)); [|apply IH; exact Hacc].
  destruct (Z.of_nat (length (acc ++ [clean u])) >=? max_images)%Z;
    [exact Hacc' | apply IH; exact Hacc'].
Qed.

(** The contract of one adapter, for any pattern whose matches end, once
    cleaned, with an image extension. *)
Lemma search_adapter_contract search_url m clean w query max_images s :
  (forall t g len, m t = Some (g, len) -> ends_with_image_ext (clean g) = true) ->
  let urls := fst (search_adapter search_url m clean w query max_images s) in
  ((1 <= max_images)%Z -> (Z.of_nat (length urls) <= max_images)%Z)
  /\ Forall (fun u => ends_with_image_ext u = true) urls
  /\ (request_failed w (search_url query) = true -> urls = []).
Proof.
  intros Hm urls. subst urls. unfold search_adapter, request_failed.
  destruct (requests_get w (search_url query)) as [[st text]|].
  - destruct (raises_for_status st); cbn [fst].
    + repeat split; [cbn; lia | constructor].
    + repeat split.
      * intros Hmax. apply collect_urls_length; [exact Hmax | cbn; lia].
      * apply collect_urls_Forall; [|constructor].
        apply (findall_Forall (fun g => ends_with_image_ext (clean g) = true)).
        exact Hm.
      * discriminate.
  - cbn [fst]. repeat split; [cbn; lia | constructor].
Qed.




(** With [max_images] zero, as the engine [both] asks for when the cap is
    one, an adapter returns one URL: the length is compared after the URL
    has been appended. *)
Example adapter_returns_one_url_for_zero :
  let page := u8 "<img src='https://e.com/a.jpg'> <img src='https://e.com/b.png'>" in
  let w := World [] (fun _ => Some (200%Z, page)) (fun _ => None)
             (fun _ => true) (fun _ => true) true in
  fst (get_google_image_urls w (u8 "rust") 0 (State ∅ [] []))
    = [u8 "https://e.com/a.jpg"].
Proof. vm_compute. reflexivity. Qed.

(** ** Filename round trip *)





Lemma find_risk_type_app base risk_type rest :
  Forall (fun p => is_risk_type p = false) base ->
  is_risk_type risk_type = true ->
  find is_risk_type (base ++ risk_type :: rest) = Some risk_type.
Proof.
  intros Hbase Hrt. induction Hbase as [|p base Hp _ IH]; cbn [app find].
  - rewrite Hrt. reflexivity.
  - rewrite Hp. exact IH.
Qed.

Lemma culture_and_disease_app base risk_type culture disease :
  Forall (fun p => is_risk_type p = false) base ->
  is_risk_type risk_type = true ->
  culture_and_disease (base ++ [risk_type; culture; disease])
    = (lower culture, lower disease).
Proof.
  intros Hbase Hrt.
  induction Hbase as [|p base Hp _ IH]; cbn [app culture_and_disease].
  - rewrite Hrt. reflexivity.
  - rewrite Hp. exact IH.
Qed.




(** A space in the English name: the directory is named with an
    underscore, the seed of the loop keeps the space, and the identity of
    the directory is not the GUID of the file names. *)
Lemma english_name_with_space :
  let item : gmap string pystr :=
    {[ "name"%string := u8 "Бурая ржавчина";
       "english_name"%string := u8 "Leaf rust" ]} in
  let risk_name_en := english_name_of item in
  risk_dir_name risk_name_en = u8 "leaf_rust"
  /\ item_guid item (u8 "diseases") (u8 "cereals") risk_name_en
     = u8 "4a447690-37f2-518f-80a5-c9ea80ec9ba5"
  /\ derive_guid (u8 "diseases") (u8 "cereals") (risk_dir_name risk_name_en)
     = u8 "7d6c0974-505b-5865-8175-7ae90010ae8e".
Proof. vm_compute. repeat split; reflexivity. Qed.

(** ** The cap *)

Lemma embedded_number_save_path e i url :
  embedded_number (save_path_of e i url) = Some (file_number e i).
Proof.
  destruct (file_ext_of_shape url) as [x [Hfe Hx]].
  unfold save_path_of, file_name, path_join. rewrite Hfe.
  fold (file_number e i).
  set (a := env_risk_dir e ++ [SLASH] ++ env_risk_type e ++ [UNDERSCORE]
             ++ lower (env_culture_en e) ++ [UNDERSCORE] ++ env_guid e).
  replace (env_risk_dir e ++ [SLASH] ++ env_risk_type e ++ [UNDERSCORE]
             ++ lower (env_culture_en e) ++ [UNDERSCORE] ++ env_guid e
             ++ [UNDERSCORE] ++ format_02d (file_number e i) ++ DOT :: x)
    with ((a ++ [UNDERSCORE] ++ format_02d (file_number e i)) ++ DOT :: x)
    by (subst a; rewrite <- !app_assoc; reflexivity).
  apply embedded_number_stored. exact Hx.
Qed.

Lemma lower_keeps c s : lower_cp c = c -> In c s -> In c (lower s).
Proof. intros Hc Hin. rewrite <- Hc. unfold lower. apply in_map. exact Hin. Qed.

Lemma file_ext_of_no_slash url : ~ In SLASH (file_ext_of url).
Proof.
  unfold file_ext_of.
  destruct (pystr_eqb (splitext_ext url) []
            || negb (existsb (pystr_eqb (lower (splitext_ext url))) IMAGE_EXTS))
    eqn:E.
  - cbn. intuition discriminate.
  - apply orb_false_elim in E. destruct E as [_ E].
    apply negb_false_iff in E. apply existsb_exists in E.
    destruct E as [ext [Hin Heq]]. apply pystr_eqb_eq in Heq.
    intros Hs. apply (lower_keeps SLASH) in Hs; [|reflexivity].
    rewrite Heq in Hs. cbn in Hin.
    destruct Hin as [<-|[<-|[<-|[<-|[]]]]]; cbn in Hs; intuition discriminate.
Qed.

Lemma format_02d_no_slash n : ~ In SLASH (format_02d n).
Proof.
  assert (Hd : forallb is_digit (format_02d n) = true).
  { unfold format_02d.
    assert (forallb is_digit (decimal n) = true)
      by (apply digits_fuel_digits; reflexivity).
    destruct (length (decimal n) <? 2)%nat; [cbn; assumption | assumption]. }
  intros Hin. rewrite forallb_forall in Hd. apply Hd in Hin. discriminate.
Qed.

Lemma file_name_plain e n url :
  plain_env e ->
  ~ In SLASH (file_name (env_risk_type e) (env_culture_en e) (env_guid e) n
                        (file_ext_of url)).
Proof.
  intros [Hrt [Hce Hg]]. unfold file_name. rewrite !in_app_iff.
  intros [H|[H|[H|[H|[H|[H|[H|H]]]]]]].
  - exact (Hrt H).
  - cbn in H. intuition discriminate.
  - apply Hce. unfold lower in H. apply in_map_iff in H.
    destruct H as [c [Hc Hin]].
    assert (c = SLASH) as ->; [|exact Hin].
    revert Hc. unfold lower_cp, in_range, SLASH.
    destruct (N.leb_spec 0x41 c), (N.leb_spec c 0x5A),
             (N.leb_spec 0x410 c), (N.leb_spec c 0x42F),
             (N.leb_spec 0x400 c), (N.leb_spec c 0x40F); cbn [andb]; lia.
  - cbn in H. intuition discriminate.
  - exact (Hg H).
  - cbn in H. intuition discriminate.
  - exact (format_02d_no_slash _ H).
  - exact (file_ext_of_no_slash _ H).
Qed.

Lemma split_on_plain sep s : ~ In sep s -> split_on sep s = [s].
Proof.
  induction s as [|c s IH]; intros H; cbn; [reflexivity|].
  rewrite IH by (intros Hin; apply H; now right).
  destruct (N.eqb_spec c sep) as [->|_]; [|reflexivity].
  exfalso. apply H. now left.
Qed.

Lemma child_of_join dir name :
  ~ In SLASH name -> name <> [] -> child_of dir (path_join dir name) = Some name.
Proof.
  intros Hplain Hne. unfold child_of, path_join.
  rewrite app_assoc, startswith_app.
  replace (length dir + 1)%nat with (length (dir ++ [SLASH]))
    by (rewrite length_app; reflexivity).
  rewrite skipn_app, Nat.sub_diag, skipn_all. cbn [skipn app].
  rewrite split_on_plain by exact Hplain. cbv beta iota.
  change (skipn 0 name) with name.
  apply pystr_eqb_neq in Hne. rewrite Hne. reflexivity.
Qed.

Lemma blocked_names_spec fs e l : forall i name,
  In name (blocked_names fs e i l) ->
  exists k url, (i <= k)%nat
    /\ name = file_name (env_risk_type e) (env_culture_en e) (env_guid e)
                        (file_number e k) (file_ext_of url)
    /\ is_Some (fs !! path_join (env_risk_dir e) name).
Proof.
  induction l as [|u rest IH]; intros i name Hin; cbn in Hin; [destruct Hin|].
  destruct (fs !! path_join (env_risk_dir e)
              (file_name (env_risk_type e) (env_culture_en e) (env_guid e)
                         (file_number e i) (file_ext_of u))) eqn:E.
  - destruct Hin as [<-|Hin].
    + exists i, u. repeat split; [lia | rewrite E; eauto].
    + destruct (IH _ _ Hin) as [k [url [Hk H]]]. exists k, url. split; [lia|exact H].
  - destruct (IH _ _ Hin) as [k [url [Hk H]]]. exists k, url. split; [lia|exact H].
Qed.

Lemma blocked_names_NoDup fs e l : forall i, NoDup (blocked_names fs e i l).
Proof.
  induction l as [|u rest IH]; intros i; cbn; [constructor|].
  destruct (fs !! _); [|apply IH].
  constructor; [|apply IH].
  intros Hin. apply list_elem_of_In in Hin.
  apply blocked_names_spec in Hin. destruct Hin as [k [url [Hk [Heq _]]]].
  pose proof (embedded_number_save_path e i u) as H1.
  pose proof (embedded_number_save_path e k url) as H2.
  unfold save_path_of in H1, H2. fold (file_number e i) in H1.
  fold (file_number e k) in H2. rewrite <- Heq, H1 in H2.
  injection H2 as H2. apply file_number_inj in H2. lia.
Qed.

Lemma file_name_nonempty rt ce g n ext : file_name rt ce g n ext <> [].
Proof.
  unfold file_name. intros H. apply (f_equal (@length N)) in H.
  rewrite !length_app in H. cbn in H. lia.
Qed.

Lemma blocked_names_bound fs e i l :
  plain_env e ->
  (length (blocked_names fs e i l)
   <= size (glob_star fs (env_risk_dir e)))%nat.
Proof.
  intros Hplain.
  rewrite <- (size_list_to_set (C := gset pystr) _ (blocked_names_NoDup fs e l i)).
  apply subseteq_size. intros name Hin.
  apply elem_of_list_to_set, list_elem_of_In in Hin.
  apply blocked_names_spec in Hin. destruct Hin as [k [url [_ [Heq Hsome]]]].
  unfold glob_star. apply elem_of_list_to_set, list_elem_of_omap.
  exists (path_join (env_risk_dir e) name). split.
  - apply elem_of_elements, elem_of_dom. exact Hsome.
  - apply child_of_join; rewrite Heq.
    + apply file_name_plain. exact Hplain.
    + apply file_name_nonempty.
Qed.

Lemma download_image_accepted w url save_path s :
  accepted w url = true -> (forall p, can_open w p = true) ->
  exists r, urlopen w url = Some r
    /\ fst (download_image w url save_path s) = true
    /\ files (snd (download_image w url save_path s))
       = <[resolve_path save_path (extension_of (content_type r)) := body r]>
           (<[resolve_path save_path (extension_of (content_type r)) := []]>
              (files s)).
Proof.
  unfold accepted, download_image. intros Hacc Hopen.
  destruct (urlopen w url) as [r|]; [|discriminate].
  apply andb_prop in Hacc. destruct Hacc as [Hacc Hlen].
  apply andb_prop in Hacc. destruct Hacc as [Hst Hct].
  apply negb_true_iff in Hlen.
  exists r. rewrite Hst, Hct, Hopen, Hlen. cbn. repeat split.
Qed.

Lemma blocked_names_length fs e l : forall i,
  (length (blocked_names fs e i l) <= length l)%nat.
Proof.
  induction l as [|u rest IH]; intros i; cbn; [lia|].
  specialize (IH (S i)). destruct (fs !! _); cbn; lia.
Qed.

(** With every response accepted and every file writable, the loop counts
    as many downloads as there are candidates whose requested path was not
    a file at the start, up to the room left under the cap.  [fs0] is the
    file system at the start of the loop. *)
Lemma download_loop_min w e fs0 l :
  (forall u, In u l -> accepted w u = true) ->
  (forall p, can_open w p = true) ->
  forall i n s,
    (forall p, is_Some (fs0 !! p) -> is_Some (files s !! p)) ->
    (forall p, is_Some (files s !! p) ->
       is_Some (fs0 !! p)
       \/ exists j, (j < i)%nat /\ embedded_number p = Some (file_number e j)) ->
    (Z.of_nat (env_existing e) + n <= env_max_images e)%Z ->
    fst (download_loop w e i l n s)
    = Z.min (env_max_images e - Z.of_nat (env_existing e))
            (n + Z.of_nat (length l)
               - Z.of_nat (length (blocked_names fs0 e i l))).
Proof.
  intros Hacc Hopen.
  induction l as [|u rest IH]; intros i n s Hsub Hinv Hn.
  - cbn. lia.
  - cbn [download_loop].
    pose proof (blocked_names_length fs0 e rest (S i)) as Hbl.
    destruct (Z.geb_spec (Z.of_nat (env_existing e) + n) (env_max_images e))
      as [Hge|Hlt].
    { cbn [fst blocked_names].
      destruct (fs0 !! _); cbn [length]; lia. }
    assert (Hrest : forall u', In u' rest -> accepted w u' = true)
      by (intros u' Hu'; apply Hacc; now right).
    cbn [blocked_names]. change (path_join (env_risk_dir e)
      (file_name (env_risk_type e) (env_culture_en e) (env_guid e)
                 (file_number e i) (file_ext_of u)))
      with (save_path_of e i u).
    unfold exists_file.
    destruct (files s !! save_path_of e i u) as [old|] eqn:Es.
    + (* the requested path exists: it was a file at the start *)
      destruct (Hinv (save_path_of e i u)) as [H0|[j [Hj Hnum]]];
        [rewrite Es; eauto | |].
      * destruct H0 as [c0 H0]. rewrite H0.
        rewrite (IH Hrest (S i) n s Hsub); [cbn [length]; lia | | lia].
        intros p Hp. destruct (Hinv p Hp) as [H|[j [Hj Hj']]]; [now left|].
        right. exists j. split; [lia | exact Hj'].
      * rewrite embedded_number_save_path in Hnum. injection Hnum as Hnum.
        apply file_number_inj in Hnum. lia.
    + (* the requested path is free: the download succeeds *)
      assert (H0 : fs0 !! save_path_of e i u = None).
      { destruct (fs0 !! save_path_of e i u) eqn:E0; [|reflexivity].
        destruct (Hsub (save_path_of e i u)) as [c Hc]; [rewrite E0; eauto|].
        congruence. }
      rewrite H0.
      destruct (download_image_accepted w u (save_path_of e i u) s
                  (Hacc u (or_introl eq_refl)) Hopen) as [r [Hr [Hok Hfiles]]].
      destruct (download_image w u (save_path_of e i u) s) as [ok s1].
      cbn [fst snd] in Hok, Hfiles. subst ok.
      rewrite (IH Hrest (S i) (n + 1)%Z s1); [cbn [length]; lia | | | lia].
      * intros p Hp. rewrite Hfiles.
        destruct (decide (resolve_path (save_path_of e i u)
                            (extension_of (content_type r)) = p)) as [->|Hne].
        { rewrite lookup_insert_eq. eauto. }
        rewrite !lookup_insert_ne by exact Hne. apply Hsub. exact Hp.
      * intros p Hp. rewrite Hfiles in Hp.
        destruct (decide (resolve_path (save_path_of e i u)
                            (extension_of (content_type r)) = p)) as [<-|Hne].
        { right. exists i. split; [lia | apply embedded_number_resolved]. }
        rewrite !lookup_insert_ne in Hp by exact Hne.
        destruct (Hinv p Hp) as [H|[j [Hj Hj']]]; [now left|].
        right. exists j. split; [lia | exact Hj'].
Qed.

(** Exactly the room left, for a list of at least [max_images] candidates:
    the case of a single source, which returns [max_images] URLs when the
    page of results holds that many. *)
Lemma download_loop_exact w e l s :
  plain_env e ->
  (forall u, In u l -> accepted w u = true) ->
  (forall p, can_open w p = true) ->
  env_existing e = size (glob_star (files s) (env_risk_dir e)) ->
  (Z.of_nat (env_existing e) < env_max_images e)%Z ->
  (env_max_images e <= Z.of_nat (length l))%Z ->
  fst (download_loop w e 0 l 0 s)
  = (env_max_images e - Z.of_nat (env_existing e))%Z.
Proof.
  intros Hplain Hacc Hopen Hex Hlt Hlen.
  rewrite (download_loop_min w e (files s) l Hacc Hopen 0 0%Z s);
    [| intros p Hp; exact Hp | intros p Hp; now left | lia].
  pose proof (blocked_names_bound (files s) e 0 l Hplain) as Hb.
  rewrite <- Hex in Hb. lia.
Qed.

Lemma contains_app p t z : contains p (t ++ p ++ z) = true.
Proof.
  induction t as [|c t IH].
  - destruct p; [destruct z; reflexivity|]. cbn.
    rewrite N.eqb_refl, startswith_app. reflexivity.
  - cbn [app]. cbn [contains]. rewrite IH. apply orb_true_r.
Qed.

Lemma has_image_ext_of_end u : ends_with_image_ext u = true -> has_image_ext u = true.
Proof.
  intros H. apply ends_with_image_ext_inv in H. destruct H as [t [e [He ->]]].
  unfold has_image_ext. apply existsb_exists. exists e. split; [exact He|].
  rewrite lower_app.
  replace (lower e) with (e ++ []).
  - apply contains_app.
  - rewrite app_nil_r. cbn in He.
    destruct He as [<-|[<-|[<-|[<-|[]]]]]; reflexivity.
Qed.

Lemma collect_urls_full clean max_images found :
  Forall (fun u => has_image_ext (clean u) = true) found ->
  forall acc,
    (Z.of_nat (length acc) < max_images)%Z ->
    (max_images <= Z.of_nat (length acc + length found))%Z ->
    Z.of_nat (length (collect_urls clean max_images found acc)) = max_images.
Proof.
  induction 1 as [|u found Hu _ IH]; intros acc Hlt Hle; cbn [collect_urls].
  - cbn in Hle. lia.
  - rewrite Hu.
    destruct (Z.geb_spec (Z.of_nat (length (acc ++ [clean u]))) max_images)
      as [Hge|Hlt'].
    + rewrite length_app in *. cbn [length] in *. lia.
    + apply IH; [exact Hlt'|]. rewrite length_app. cbn [length] in *. lia.
Qed.

(** The cap is met exactly on the paths with one source: with the engine
    [google], a page of results with at least [max_images] matches, every
    response accepted and every file writable, [process_risk_item] counts
    exactly [max_images] minus the number of entries the directory had. *)
Lemma process_risk_item_google_exact w item culture_ru culture_en risk_type
    max_images s st text :
  let risk_name_ru := strip (item_get item "name") in
  let risk_name_en := english_name_of item in
  let risk_dir := risk_dir_of w risk_type culture_en risk_name_en in
  let existing := size (glob_star (files s) risk_dir) in
  risk_name_ru <> [] ->
  can_mkdir w risk_dir = true ->
  requests_get w (google_url (create_search_query risk_name_ru culture_ru
                                risk_type s_google)) = Some (st, text) ->
  raises_for_status st = false ->
  (max_images <= Z.of_nat (length (findall google_match text 0)))%Z ->
  Forall (fun u => accepted w u = true) (findall google_match text 0) ->
  (forall p, can_open w p = true) ->
  ~ In SLASH risk_type -> ~ In SLASH culture_en ->
  ~ In SLASH (item_guid item risk_type culture_en risk_name_en) ->
  (Z.of_nat existing < max_images)%Z ->
  fst (process_risk_item w item culture_ru culture_en risk_type s_google
                         max_images s)
  = Some (max_images - Z.of_nat existing)%Z.
Proof.
  intros risk_name_ru risk_name_en risk_dir existing Hname Hmk Hget Hst Hlen
         Hacc Hopen Hrt Hce Hg Hlt.
  unfold process_risk_item. fold risk_name_ru risk_name_en risk_dir existing.
  apply pystr_eqb_neq in Hname. rewrite Hname, Hmk. cbn [negb].
  destruct (Z.geb_spec (Z.of_nat existing) max_images) as [Hge|_]; [lia|].
  unfold search_urls.
  change (pystr_eqb (lower s_google) s_google) with true. cbv iota.
  unfold get_google_image_urls, search_adapter.
  fold (google_url (create_search_query risk_name_ru culture_ru risk_type
                      s_google)).
  rewrite Hget, Hst.
  remember (collect_urls (fun u => u) max_images
              (findall google_match text 0) []) as urls eqn:Eu.
  assert (Hn : Z.of_nat (length urls) = max_images).
  { subst urls. apply collect_urls_full; [|cbn; lia|cbn [length]; lia].
    apply (findall_Forall (fun g => has_image_ext g = true)).
    intros t g len Hm. apply has_image_ext_of_end.
    eapply google_match_ends. exact Hm. }
  assert (Hurls : forall u, In u urls -> accepted w u = true).
  { apply List.Forall_forall. subst urls.
    apply (collect_urls_Forall (fun u => accepted w u = true));
      [exact Hacc | constructor]. }
  clear Eu. destruct urls as [|u0 urls']; [cbn in Hn; lia|].
  cbv beta iota zeta.
  set (s1 := log_request _ s).
  set (e := LoopEnv risk_type culture_en
              (item_guid item risk_type culture_en risk_name_en)
              risk_dir existing max_images).
  pose proof (download_loop_exact w e (u0 :: urls') s1) as Hex.
  destruct (download_loop w e 0 (u0 :: urls') 0 s1) as [k s2].
  cbn [fst] in *.
  assert (Hk : k = (env_max_images e - Z.of_nat (env_existing e))%Z).
  { apply Hex;
      [ repeat split; assumption | exact Hurls | exact Hopen | reflexivity
      | exact Hlt | apply Z.eq_le_incl; symmetry; exact Hn ]. }
  rewrite Hk. reflexivity.
Qed.

(** C3 fails on the code for the engine [both] and an odd cap.  Each source
    is asked for half the cap, rounded down, so a cap of three gives two
    candidates and two downloads in an empty directory, although both pages
    of results hold four images and every download succeeds; on the same
    world the engines [google] and [yandex] download three. *)
Theorem C3_both_sources_odd_cap :
  let ypage :=
    flat_map (fun u => s_orig_url ++ u8 u ++ [0x22; 0x2C])
      ["https://y.com/1.jpg"; "https://y.com/2.jpg"; "https://y.com/3.jpg";
       "https://y.com/4.jpg"]%string in
  let gpage :=
    u8 "'https://g.com/1.jpg' 'https://g.com/2.jpg' 'https://g.com/3.jpg' 'https://g.com/4.jpg'" in
  let w := World (u8 "/img")
             (fun url => Some (200%Z, if startswith yandex_prefix url
                                      then ypage else gpage))
             (fun _ => Some (Response 200 (u8 "image/jpeg") (repeat 7 1000)))
             (fun _ => true) (fun _ => true) true in
  let item : gmap string pystr :=
    {[ "name"%string := u8 "Ржавчина"; "english_name"%string := u8 "rust" ]} in
  let run engine :=
    process_risk_item w item (u8 "пшеница") (u8 "cereals") (u8 "diseases")
                      engine 3 (State ∅ [] []) in
  length (findall yandex_match ypage 0) = 4%nat
  /\ length (findall google_match gpage 0) = 4%nat
  /\ fst (run (u8 "both")) = Some 2%Z
  /\ map fst (saved (snd (run (u8 "both"))))
     = [u8 "https://y.com/1.jpg"; u8 "https://g.com/1.jpg"]
  /\ fst (run (u8 "google")) = Some 3%Z
  /\ fst (run (u8 "yandex")) = Some 3%Z.
Proof. vm_compute. repeat split; reflexivity. Qed.

(** ** Scenarios *)

(** A row with the local name only, a cap of three, an empty directory and
    a page of results with five images: three files are written, numbered
    01 to 03, all with the one GUID derived from the lower-cased local
    name, which also names the directory. *)
Example three_files_for_a_cap_of_three :
  let page :=
    u8 "'https://e.com/1.jpg' 'https://e.com/2.jpg' 'https://e.com/3.jpg' 'https://e.com/4.jpg' 'https://e.com/5.jpg'" in
  let w := World (u8 "img") (fun _ => Some (200%Z, page))
             (fun _ => Some (Response 200 (u8 "image/jpeg") (repeat 7 1000)))
             (fun _ => true) (fun _ => true) true in
  let item : gmap string pystr := {[ "name"%string := u8 "Ржавчина" ]} in
  let out := process_risk_item w item (u8 "пшеница") (u8 "cereals")
               (u8 "diseases") (u8 "google") 3 (State ∅ [] []) in
  fst out = Some 3%Z
  /\ map snd (saved (snd out))
     = map u8
         ["img/diseases/cereals/ржавчина/diseases_cereals_5bfdc3d5-763c-5e27-89c8-aa10efb1c96d_01.jpg";
          "img/diseases/cereals/ржавчина/diseases_cereals_5bfdc3d5-763c-5e27-89c8-aa10efb1c96d_02.jpg";
          "img/diseases/cereals/ржавчина/diseases_cereals_5bfdc3d5-763c-5e27-89c8-aa10efb1c96d_03.jpg"]%string
  /\ size (dom (files (snd out))) = 3%nat.
Proof. vm_compute. repeat split; reflexivity. Qed.

(** File names of the input tables. *)
Example csv_file_names :
  extract_culture_risk_info (u8 "diseases_пшеница_cereals")
    = (u8 "пшеница", u8 "cereals", u8 "diseases")
  /\ extract_culture_risk_info (u8 "example_pests_wheat_cereals")
     = (u8 "wheat", u8 "cereals", u8 "pests")
  /\ extract_culture_risk_info (u8 "wrong_format")
     = (u8 "unknown", u8 "unknown", u8 "unknown").
Proof. vm_compute. repeat split; reflexivity. Qed.

(** * Further properties *)

(** The file system of these statements is the store of image files, a
    map from paths to contents: the log files of the modules (crawler.log,
    converter.log) and the directories themselves are not part of it. *)

(** ** Names of the input tables *)

Lemma split_on_cons sep s : exists p ps, split_on sep s = p :: ps.
Proof.
  induction s as [|c s [p [ps IH]]]; cbn; [eauto|].
  rewrite IH. destruct (c =? sep); eauto.
Qed.

Lemma split_on_app sep a b :
  ~ In sep a -> split_on sep (a ++ sep :: b) = a :: split_on sep b.
Proof.
  induction a as [|c a IH]; intros Ha.
  - cbn. destruct (split_on_cons sep b) as [p [ps ->]].
    rewrite N.eqb_refl. reflexivity.
  - cbn [app split_on]. rewrite IH by (intros H; apply Ha; now right).
    destruct (N.eqb_spec c sep) as [->|_]; [|reflexivity].
    exfalso. apply Ha. now left.
Qed.

Lemma split_on_length sep s :
  length (split_on sep s) = S (length (List.filter (N.eqb sep) s)).
Proof.
  induction s as [|c s IH]; [reflexivity|].
  cbn [split_on List.filter].
  destruct (split_on_cons sep s) as [p [ps E]]. rewrite E in *.
  rewrite (N.eqb_sym sep c). destruct (c =? sep); cbn [length] in *; lia.
Qed.

(** X1.  A table whose name is risk type, local crop name and English crop
    name joined by underscores, each free of underscores, is read back as
    these three, whether the name stops there or goes on with further
    underscore-separated segments; with the prefix example in front, the
    three segments after it are read. *)
Theorem extract_culture_risk_info_parses (risk_type culture_ru culture_en
    tail : pystr) :
  ~ In UNDERSCORE risk_type -> ~ In UNDERSCORE culture_ru ->
  ~ In UNDERSCORE culture_en ->
  risk_type <> s_example ->
  tail = [] \/ (exists t, tail = UNDERSCORE :: t) ->
  extract_culture_risk_info (join3 risk_type culture_ru culture_en ++ tail)
    = (culture_ru, culture_en, risk_type)
  /\ extract_culture_risk_info
       (s_example ++ UNDERSCORE :: join3 risk_type culture_ru culture_en ++ tail)
     = (culture_ru, culture_en, risk_type).
Proof.
  intros Hrt Hru Hen Hex Htail.
  assert (Hsplit : exists more,
    split_on UNDERSCORE (join3 risk_type culture_ru culture_en ++ tail)
    = risk_type :: culture_ru :: culture_en :: more).
  { unfold join3. rewrite <- !app_assoc. cbn [app].
    rewrite split_on_app by exact Hrt. rewrite split_on_app by exact Hru.
    destruct Htail as [->|[t ->]].
    - rewrite app_nil_r, split_on_plain by exact Hen. eauto.
    - rewrite split_on_app by exact Hen. eauto. }
  destruct Hsplit as [more Hsplit]. split.
  - unfold extract_culture_risk_info. rewrite Hsplit.
    apply pystr_eqb_neq in Hex.
    destruct more; [reflexivity|]. rewrite Hex. reflexivity.
  - unfold extract_culture_risk_info.
    rewrite split_on_app by (cbn; intuition discriminate).
    rewrite Hsplit.
    rewrite (proj2 (pystr_eqb_eq s_example s_example) eq_refl). reflexivity.
Qed.

Lemma extract_culture_risk_info_parses_witness :
  extract_culture_risk_info (u8 "diseases_пшеница_cereals")
    = (u8 "пшеница", u8 "cereals", u8 "diseases")
  /\ extract_culture_risk_info (u8 "example_diseases_пшеница_cereals")
     = (u8 "пшеница", u8 "cereals", u8 "diseases").
Proof.
  refine (extract_culture_risk_info_parses (u8 "diseases") (u8 "пшеница")
            (u8 "cereals") [] _ _ _ _ (or_introl eq_refl));
    vm_compute; intuition discriminate.
Defined.

(** X2.  A table name with fewer than two underscores yields unknown for
    the crop in both languages and for the risk type. *)
Theorem extract_culture_risk_info_fallback (file_stem : pystr) :
  (length (List.filter (N.eqb UNDERSCORE) file_stem) < 2)%nat ->
  extract_culture_risk_info file_stem = (s_unknown, s_unknown, s_unknown).
Proof.
  intros H. unfold extract_culture_risk_info.
  pose proof (split_on_length UNDERSCORE file_stem) as Hl.
  destruct (split_on UNDERSCORE file_stem) as [|p0 [|p1 [|p2 ps]]];
    try reflexivity.
  cbn [length] in Hl. lia.
Qed.

Lemma extract_culture_risk_info_fallback_witness :
  extract_culture_risk_info (u8 "wrong_format")
    = (s_unknown, s_unknown, s_unknown).
Proof.
  apply extract_culture_risk_info_fallback. vm_compute. lia.
Defined.

(** ** Source adapters, continued *)

Lemma collect_urls_firstn clean max_images found :
  Forall (fun u => has_image_ext (clean u) = true) found ->
  forall acc,
    (Z.of_nat (length acc) < max_images)%Z ->
    collect_urls clean max_images found acc
    = acc ++ firstn (Z.to_nat max_images - length acc) (map clean found).
Proof.
  induction 1 as [|u found Hu _ IH]; intros acc Hlt; cbn [collect_urls map].
  - rewrite firstn_nil, app_nil_r. reflexivity.
  - rewrite Hu.
    destruct (Z.geb_spec (Z.of_nat (length (acc ++ [clean u]))) max_images)
      as [Hge|Hlt'].
    + rewrite length_app in Hge. cbn [length] in Hge.
      replace (Z.to_nat max_images - length acc)%nat with 1%nat by lia.
      reflexivity.
    + rewrite IH by exact Hlt'. rewrite length_app in *. cbn [length] in *.
      replace (Z.to_nat max_images - length acc)%nat
        with (S (Z.to_nat max_images - (length acc + 1)))%nat by lia.
      cbn [firstn]. rewrite <- app_assoc. reflexivity.
Qed.

(** X3.  When the page of results arrives, an adapter asked for at least
    one URL returns the first [max_images] matches of its pattern in the
    order of the page (for Yandex with the backslashes removed): the
    extension filter that follows the pattern rejects none of them. *)
Theorem adapters_return_first_matches (w : world) (query : pystr)
    (max_images : Z) (s : state) (st : Z) (text : pystr) :
  (1 <= max_images)%Z ->
  raises_for_status st = false ->
  (requests_get w (google_url query) = Some (st, text) ->
   fst (get_google_image_urls w query max_images s)
   = firstn (Z.to_nat max_images) (findall google_match text 0))
  /\ (requests_get w (yandex_url query) = Some (st, text) ->
      fst (get_yandex_image_urls w query max_images s)
      = firstn (Z.to_nat max_images)
          (map (remove_char BACKSLASH) (findall yandex_match text 0))).
Proof.
  intros Hmax Hst. split; intros Hget.
  - unfold get_google_image_urls, search_adapter.
    fold (google_url query). rewrite Hget, Hst. cbn [fst].
    rewrite collect_urls_firstn; [ | | cbn; lia ].
    + cbn [app length]. rewrite Nat.sub_0_r, map_id. reflexivity.
    + apply (findall_Forall (fun g => has_image_ext g = true)).
      intros t g len Hm. apply has_image_ext_of_end.
      eapply google_match_ends. exact Hm.
  - unfold get_yandex_image_urls, search_adapter.
    fold (yandex_url query). rewrite Hget, Hst. cbn [fst].
    rewrite collect_urls_firstn; [ | | cbn; lia ].
    + cbn [app length]. rewrite Nat.sub_0_r. reflexivity.
    + apply (findall_Forall
               (fun g => has_image_ext (remove_char BACKSLASH g) = true)).
      intros t g len Hm. apply has_image_ext_of_end.
      eapply yandex_match_ends. exact Hm.
Qed.

Lemma adapters_return_first_matches_witness :
  let page := u8 "<img src='https://e.com/a.jpg'> <img src='https://e.com/b.png'> <img src='https://e.com/c.webp'>" in
  let w := World [] (fun _ => Some (200%Z, page)) (fun _ => None)
             (fun _ => true) (fun _ => true) true in
  fst (get_google_image_urls w (u8 "rust") 2 (State ∅ [] []))
  = firstn 2 (findall google_match page 0).
Proof.
  intros page w.
  exact (proj1 (adapters_return_first_matches w (u8 "rust") 2 (State ∅ [] [])
                  200 page ltac:(lia) eq_refl) eq_refl).
Defined.

(** ** Fetcher, continued *)

(** X4.  [download_image] returns success exactly when the response is
    accepted (status 200, an image content type, at least 1000 octets) and
    the resolved destination can be opened; the destination then holds the
    whole payload and no other path has changed. *)
Theorem download_image_succeeds_iff (w : world) (url save_path : pystr)
    (s : state) :
  let out := download_image w url save_path s in
  fst out = true <->
  exists r, urlopen w url = Some r
    /\ accepted w url = true
    /\ can_open w (resolve_path save_path (extension_of (content_type r))) = true
    /\ (1000 <= length (body r))%nat
    /\ files (snd out)
       = <[resolve_path save_path (extension_of (content_type r)) := body r]>
           (files s).
Proof.
  cbv zeta. unfold download_image, accepted.
  destruct (urlopen w url) as [r|].
  2: { split; [discriminate | intros [r [Hr _]]; discriminate]. }
  destruct (status r =? 200)%Z.
  2: { split; [discriminate | intros [r' [_ [Ha _]]]; discriminate]. }
  destruct (startswith s_image_slash (content_type r)).
  2: { split; [discriminate | intros [r' [_ [Ha _]]]; discriminate]. }
  cbn [negb andb].
  destruct (can_open w (resolve_path save_path (extension_of (content_type r))))
    eqn:Eo.
  2: { split; [discriminate|]. intros [r' [Hr' [_ [Ho _]]]].
       injection Hr' as <-. congruence. }
  destruct (Nat.ltb_spec (length (body r)) 1000) as [Hlt|Hge]; cbn [negb fst snd].
  - split; [discriminate | intros [r' [_ [Ha _]]]; discriminate].
  - split; [|reflexivity]. intros _. exists r.
    split; [reflexivity|]. split; [reflexivity|]. split; [exact Eo|].
    split; [exact Hge|]. cbn. apply insert_insert_eq.
Qed.



(** X6.  Resolving a destination is idempotent: the path that a call
    writes for a content type is the path a further call with that path
    and that content type writes. *)
Theorem resolve_path_idempotent (save_path content_type : pystr) :
  resolve_path (resolve_path save_path (extension_of content_type))
               (extension_of content_type)
  = resolve_path save_path (extension_of content_type).
Proof.
  pose proof (resolve_path_ext save_path (extension_of content_type)
                (extension_of_lower content_type)) as H.
  unfold resolve_path at 1. rewrite H. reflexivity.
Qed.

(** ** Acquisition, continued *)

Lemma lstrip_all_space s : forallb is_space s = true -> lstrip s = [].
Proof.
  induction s as [|c s IH]; [reflexivity|]. cbn [forallb lstrip].
  intros H. apply andb_prop in H. destruct H as [-> H]. apply IH. exact H.
Qed.

Lemma strip_all_space s : forallb is_space s = true -> strip s = [].
Proof.
  intros H. unfold strip, rstrip. rewrite (lstrip_all_space s H). reflexivity.
Qed.

(** X7.  A row without a usable name (no name column, or a name made of
    white space only) and a row whose directory cannot be created are
    passed over: no request is made and no file is touched. *)
Theorem process_risk_item_abandons (w : world) (item : gmap string pystr)
    (culture_ru culture_en risk_type search_engine : pystr) (max_images : Z)
    (s : state) :
  forallb is_space (item_get item "name") = true
  \/ can_mkdir w (risk_dir_of w risk_type culture_en (english_name_of item))
     = false ->
  process_risk_item w item culture_ru culture_en risk_type search_engine
                    max_images s = (None, s).
Proof.
  intros H. unfold process_risk_item.
  destruct (pystr_eqb (strip (item_get item "name")) []) eqn:E; [reflexivity|].
  destruct H as [H|H].
  - rewrite (strip_all_space _ H) in E. discriminate.
  - rewrite H. reflexivity.
Qed.

Lemma process_risk_item_abandons_witness :
  let w := World (u8 "/img") (fun _ => Some (200%Z, u8 "'https://e.com/a.jpg'"))
             (fun _ => Some (Response 200 (u8 "image/jpeg") (repeat 7 1000)))
             (fun _ => true) (fun _ => true) true in
  let item : gmap string pystr :=
    {[ "name"%string := u8 "   "; "english_name"%string := u8 "rust" ]} in
  process_risk_item w item (u8 "пшеница") (u8 "cereals") (u8 "diseases")
                    (u8 "google") 3 (State ∅ [] []) = (None, State ∅ [] []).
Proof.
  intros w item. apply process_risk_item_abandons. left. vm_compute. reflexivity.
Defined.

(** Every outcome of a call of [download_image]. *)
Lemma download_image_outcome w url save_path s :
  let out := download_image w url save_path s in
  net (snd out) = net s ++ [ImageRequest url]
  /\ ((fst out = false /\ saved (snd out) = saved s
       /\ (files (snd out) = files s
           \/ exists r, urlopen w url = Some r
                /\ files (snd out)
                   = <[resolve_path save_path
                         (extension_of (content_type r)) := []]> (files s)))
      \/ (exists r, urlopen w url = Some r /\ fst out = true
            /\ (1000 <= length (body r))%nat
            /\ saved (snd out)
               = saved s ++ [(url, resolve_path save_path
                                     (extension_of (content_type r)))]
            /\ files (snd out)
               = <[resolve_path save_path
                     (extension_of (content_type r)) := body r]> (files s))).
Proof.
  cbv zeta. split; [apply download_image_net|]. unfold download_image.
  destruct (urlopen w url) as [r|]; [|left; repeat split; now left].
  destruct (status r =? 200)%Z; [|left; repeat split; now left].
  destruct (startswith s_image_slash (content_type r));
    [|left; repeat split; now left].
  cbn [negb].
  destruct (can_open w _); [|left; repeat split; now left].
  destruct (Nat.ltb_spec (length (body r)) 1000) as [Hlt|Hge]; cbn [fst snd].
  - left. split; [reflexivity|]. split; [reflexivity|]. right.
    exists r. split; reflexivity.
  - right. exists r. split; [reflexivity|]. split; [reflexivity|].
    split; [exact Hge|]. split; [reflexivity|]. cbn. apply insert_insert_eq.
Qed.

Lemma resolved_under e i url ct :
  under (env_risk_dir e)
        (resolve_path (save_path_of e i url) (extension_of ct)) = true.
Proof.
  destruct (file_ext_of_shape url) as [x [Hfe Hx]].
  unfold save_path_of, path_join, file_name. rewrite Hfe.
  set (b := env_risk_type e ++ [UNDERSCORE] ++ lower (env_culture_en e)
            ++ [UNDERSCORE] ++ env_guid e ++ [UNDERSCORE]
            ++ format_02d (N.of_nat i + N.of_nat (env_existing e) + 1)).
  replace (env_risk_dir e ++ [SLASH] ++ env_risk_type e ++ [UNDERSCORE]
             ++ lower (env_culture_en e) ++ [UNDERSCORE] ++ env_guid e
             ++ [UNDERSCORE]
             ++ format_02d (N.of_nat i + N.of_nat (env_existing e) + 1)
             ++ DOT :: x)
    with (((env_risk_dir e ++ [SLASH]) ++ b) ++ DOT :: x)
    by (subst b; rewrite <- !app_assoc; reflexivity).
  destruct (resolve_path_shape ((env_risk_dir e ++ [SLASH]) ++ b) x
              (extension_of ct) Hx (extension_of_dot_free ct)) as [x' [-> _]].
  unfold under. rewrite <- (app_assoc (env_risk_dir e ++ [SLASH]) b).
  apply startswith_app.
Qed.

(** What one run of the loop does to the file system and to the trace. *)
Lemma download_loop_effects w e l :
  forall i n s,
    let out := download_loop w e i l n s in
    (forall q, under (env_risk_dir e) q = false ->
               files (snd out) !! q = files s !! q)
    /\ (forall q, is_Some (files s !! q) -> is_Some (files (snd out) !! q))
    /\ (exists evs, net (snd out) = net s ++ evs
          /\ Forall (fun ev => is_image_request ev = true) evs
          /\ (length evs <= length l)%nat)
    /\ (exists news, saved (snd out) = saved s ++ news
          /\ Z.of_nat (length news) = (fst out - n)%Z).
Proof.
  induction l as [|u rest IH]; intros i n s; cbn [download_loop].
  { cbv zeta. cbn [fst snd]. repeat split; try tauto.
    - exists []. rewrite app_nil_r. repeat split; [constructor | cbn; lia].
    - exists []. rewrite app_nil_r. split; [reflexivity | cbn; lia]. }
  destruct (Z.of_nat (env_existing e) + n >=? env_max_images e)%Z.
  { cbv zeta. cbn [fst snd]. repeat split; try tauto.
    - exists []. rewrite app_nil_r. repeat split; [constructor | cbn; lia].
    - exists []. rewrite app_nil_r. split; [reflexivity | cbn; lia]. }
  destruct (exists_file s (save_path_of e i u)).
  { destruct (IH (S i) n s) as [H1 [H2 [[evs [H3 [H4 H5]]] H6]]].
    cbv zeta. repeat split; try assumption.
    exists evs. repeat split; try assumption. cbn [length]. lia. }
  pose proof (download_image_outcome w u (save_path_of e i u) s) as Hd.
  destruct (download_image w u (save_path_of e i u) s) as [ok s1].
  cbv zeta in Hd. cbn [fst snd] in Hd. destruct Hd as [Hnet Hd].
  destruct (IH (S i) (if ok then n + 1 else n)%Z s1)
    as [H1 [H2 [[evs [H3 [H4 H5]]] [news [H6 H7]]]]].
  cbv zeta.
  assert (Hfr : forall q, under (env_risk_dir e) q = false ->
                          files s1 !! q = files s !! q).
  { intros q Hq.
    assert (Hne : forall r, resolve_path (save_path_of e i u)
                              (extension_of (content_type r)) <> q).
    { intros r <-. rewrite resolved_under in Hq. discriminate. }
    destruct Hd as [[_ [_ [->|[r [_ ->]]]]]|[r [_ [_ [_ [_ ->]]]]]];
      [reflexivity | |]; apply lookup_insert_ne, Hne. }
  assert (Hmono : forall q, is_Some (files s !! q) -> is_Some (files s1 !! q)).
  { intros q Hq.
    destruct Hd as [[_ [_ [->|[r [_ ->]]]]]|[r [_ [_ [_ [_ ->]]]]]];
      [exact Hq | |];
      (destruct (decide (resolve_path (save_path_of e i u)
                           (extension_of (content_type r)) = q)) as [->|Hne];
       [rewrite lookup_insert_eq; eauto
       | rewrite lookup_insert_ne by exact Hne; exact Hq]). }
  split; [|split; [|split]].
  - intros q Hq. rewrite H1 by exact Hq. apply Hfr. exact Hq.
  - intros q Hq. apply H2, Hmono. exact Hq.
  - exists (ImageRequest u :: evs). rewrite H3, Hnet, <- app_assoc.
    repeat split; [constructor; [reflexivity | exact H4] | cbn [length]; lia].
  - destruct Hd as [[Hok [Hsv _]]|[r [_ [Hok [_ [Hsv _]]]]]]; subst ok.
    + exists news. rewrite H6, Hsv. split; [reflexivity | exact H7].
    + exists ((u, resolve_path (save_path_of e i u)
                    (extension_of (content_type r))) :: news).
      rewrite H6, Hsv, <- app_assoc. split; [reflexivity|].
      cbn [length]. lia.
Qed.

Lemma search_adapter_snd search_url m clean w query max_images s :
  snd (search_adapter search_url m clean w query max_images s)
  = log_request (SearchRequest (search_url query)) s.
Proof.
  unfold search_adapter.
  destruct (requests_get w (search_url query)) as [[st text]|]; [|reflexivity].
  destruct (raises_for_status st); reflexivity.
Qed.

Lemma google_not_yandex query :
  is_yandex_request (SearchRequest (google_url query)) = false.
Proof. reflexivity. Qed.

Lemma adapter_length search_url m clean w query max_images s :
  (forall t g len, m t = Some (g, len) -> ends_with_image_ext (clean g) = true) ->
  (1 <= max_images)%Z ->
  (Z.of_nat (length (fst (search_adapter search_url m clean w query
                            max_images s))) <= max_images)%Z.
Proof.
  intros Hm Hmax.
  apply (search_adapter_contract search_url m clean w query max_images s Hm).
  exact Hmax.
Qed.

Lemma slice_to_length n l :
  (1 <= n)%Z -> (Z.of_nat (length (slice_to n l)) <= n)%Z.
Proof.
  intros Hn. unfold slice_to.
  destruct (Z.leb_spec 0 n); [|lia].
  pose proof (firstn_le_length (Z.to_nat n) l).
  rewrite length_firstn. lia.
Qed.

(** The searches of a record: the requests they add, and the number of
    candidates they return. *)
Lemma search_urls_shape w search_engine query max_images s :
  (1 <= max_images)%Z ->
  exists evs,
    snd (search_urls w search_engine query max_images s)
    = State (files s) (net s ++ evs) (saved s)
    /\ Forall (fun ev => is_search_request ev = true) evs
    /\ (length evs <= 2)%nat
    /\ (yandex_importable w = false ->
        Forall (fun ev => is_yandex_request ev = false) evs)
    /\ (Z.of_nat (length (fst (search_urls w search_engine query
                                 max_images s))) <= max_images)%Z.
Proof.
  intros Hmax.
  assert (Hg : forall s0, exists evs,
    snd (get_google_image_urls w query max_images s0)
    = State (files s0) (net s0 ++ evs) (saved s0)
    /\ Forall (fun ev => is_search_request ev = true) evs
    /\ (length evs <= 2)%nat
    /\ (yandex_importable w = false ->
        Forall (fun ev => is_yandex_request ev = false) evs)
    /\ (Z.of_nat (length (fst (get_google_image_urls w query max_images s0)))
        <= max_images)%Z).
  { intros s0. exists [SearchRequest (google_url query)].
    split; [apply search_adapter_snd|].
    split; [repeat constructor|]. split; [cbn; lia|].
    split; [intros _; repeat constructor|].
    apply adapter_length; [apply google_match_ends | exact Hmax]. }
  assert (Hy : forall s0, exists evs,
    snd (get_yandex_image_urls w query max_images s0)
    = State (files s0) (net s0 ++ evs) (saved s0)
    /\ Forall (fun ev => is_search_request ev = true) evs
    /\ (length evs <= 2)%nat
    /\ (Z.of_nat (length (fst (get_yandex_image_urls w query max_images s0)))
        <= max_images)%Z).
  { intros s0. exists [SearchRequest (yandex_url query)].
    split; [apply search_adapter_snd|].
    split; [repeat constructor|]. split; [cbn; lia|].
    apply adapter_length; [apply yandex_match_ends | exact Hmax]. }
  unfold search_urls.
  destruct (pystr_eqb (lower search_engine) s_google); [apply Hg|].
  destruct (pystr_eqb (lower search_engine) s_yandex).
  { destruct (yandex_importable w) eqn:Ey; [|apply Hg].
    destruct (Hy s) as [evs [H1 [H2 [H3 H4]]]]. exists evs.
    repeat split; try assumption. discriminate. }
  destruct (pystr_eqb (lower search_engine) s_both); [|apply Hg].
  destruct (yandex_importable w) eqn:Ey; [|apply Hg].
  pose proof (search_adapter_snd (fun q => yandex_prefix ++ quote q)
                yandex_match (remove_char BACKSLASH) w query
                (max_images / 2) s) as Hys.
  fold get_yandex_image_urls in Hys.
  destruct (get_yandex_image_urls w query (max_images / 2) s) as [yu s1].
  cbn [snd] in Hys. subst s1.
  pose proof (search_adapter_snd
                (fun q => google_prefix ++ quote q ++ google_suffix)
                google_match (fun u => u) w query (max_images / 2)
                (log_request (SearchRequest (yandex_prefix ++ quote query)) s))
    as Hgs.
  fold get_google_image_urls in Hgs.
  destruct (get_google_image_urls w query (max_images / 2) _) as [gu s2].
  cbn [snd] in Hgs. subst s2. cbn [fst snd].
  exists [SearchRequest (yandex_prefix ++ quote query);
          SearchRequest (google_prefix ++ quote query ++ google_suffix)].
  split; [unfold log_request; cbn [files net saved];
          rewrite <- app_assoc; reflexivity|].
  split; [repeat constructor|]. split; [cbn; lia|].
  split; [discriminate|]. apply slice_to_length. exact Hmax.
Qed.

Lemma search_urls_alt_shape w search_engine query max_images s :
  (1 <= max_images)%Z ->
  exists ev,
    snd (search_urls_alt w search_engine query max_images s)
    = State (files s) (net s ++ [ev]) (saved s)
    /\ is_search_request ev = true
    /\ (yandex_importable w = false -> is_yandex_request ev = false)
    /\ (Z.of_nat (length (fst (search_urls_alt w search_engine query
                                 max_images s))) <= max_images)%Z.
Proof.
  intros Hmax. unfold search_urls_alt.
  assert (Hg : exists ev,
    snd (get_google_image_urls w query max_images s)
    = State (files s) (net s ++ [ev]) (saved s)
    /\ is_search_request ev = true
    /\ (yandex_importable w = false -> is_yandex_request ev = false)
    /\ (Z.of_nat (length (fst (get_google_image_urls w query max_images s)))
        <= max_images)%Z).
  { exists (SearchRequest (google_url query)).
    split; [apply search_adapter_snd|]. split; [reflexivity|].
    split; [reflexivity|].
    apply adapter_length; [apply google_match_ends | exact Hmax]. }
  destruct (pystr_eqb (lower search_engine) s_yandex); [|exact Hg].
  destruct (yandex_importable w); [|exact Hg].
  exists (SearchRequest (yandex_url query)).
  split; [apply search_adapter_snd|]. split; [reflexivity|].
  split; [discriminate|].
  apply adapter_length; [apply yandex_match_ends | exact Hmax].
Qed.

(** A call of [process_risk_item] either returns at once, or makes at most
    three searches and runs the loop over at most [max_images] candidates. *)
Lemma process_risk_item_shape w item culture_ru culture_en risk_type
    search_engine max_images s :
  let risk_name_en := english_name_of item in
  let risk_dir := risk_dir_of w risk_type culture_en risk_name_en in
  let e := LoopEnv risk_type culture_en
             (item_guid item risk_type culture_en risk_name_en) risk_dir
             (size (glob_star (files s) risk_dir)) max_images in
  let out := process_risk_item w item culture_ru culture_en risk_type
               search_engine max_images s in
  out = (None, s)
  \/ exists evs urls,
       (1 <= max_images)%Z
       /\ Forall (fun ev => is_search_request ev = true) evs
       /\ (length evs <= 3)%nat
       /\ (yandex_importable w = false ->
           Forall (fun ev => is_yandex_request ev = false) evs)
       /\ (Z.of_nat (length urls) <= max_images)%Z
       /\ out = (match urls with
                 | [] => None
                 | _ => Some (fst (download_loop w e 0 urls 0
                                     (State (files s) (net s ++ evs) (saved s))))
                 end,
                 snd (download_loop w e 0 urls 0
                        (State (files s) (net s ++ evs) (saved s)))).
Proof.
  intros risk_name_en risk_dir e out. subst out. unfold process_risk_item.
  fold risk_name_en. fold risk_dir.
  destruct (pystr_eqb (strip (item_get item "name")) []); [now left|].
  destruct (can_mkdir w risk_dir); cbn [negb]; [|now left].
  destruct (Z.geb_spec (Z.of_nat (size (glob_star (files s) risk_dir)))
                       max_images) as [Hge|Hlt]; [now left|].
  assert (Hmax : (1 <= max_images)%Z) by lia.
  right.
  set (query := create_search_query (strip (item_get item "name")) culture_ru
                  risk_type search_engine).
  destruct (search_urls_shape w search_engine query max_images s Hmax)
    as [evs1 [Hs1 [Hf1 [Hl1 [Hy1 Hn1]]]]].
  destruct (search_urls w search_engine query max_images s) as [urls1 s1].
  cbn [fst snd] in Hs1, Hn1. subst s1.
  destruct urls1 as [|u1 urls1].
  - set (alt := alt_query (strip (item_get item "name")) culture_ru).
    destruct (search_urls_alt_shape w search_engine alt max_images
                (State (files s) (net s ++ evs1) (saved s)) Hmax)
      as [ev [Hs2 [Hf2 [Hy2 Hn2]]]].
    destruct (search_urls_alt w search_engine alt max_images _) as [urls2 s2].
    cbn [fst snd files net saved] in Hs2, Hn2. subst s2.
    exists (evs1 ++ [ev]), urls2. rewrite app_assoc.
    split; [exact Hmax|].
    split; [apply Forall_app; split; [exact Hf1 | repeat constructor; exact Hf2]|].
    split; [rewrite length_app; cbn [length]; lia|].
    split; [intros Hi; apply Forall_app; split;
            [apply Hy1; exact Hi | repeat constructor; apply Hy2; exact Hi]|].
    split; [exact Hn2|].
    destruct urls2 as [|u2 urls2]; [reflexivity|].
    fold e. destruct (download_loop w e 0 (u2 :: urls2) 0 _); reflexivity.
  - exists evs1, (u1 :: urls1).
    split; [exact Hmax|]. split; [exact Hf1|]. split; [lia|].
    split; [exact Hy1|]. split; [exact Hn1|].
    fold e. destruct (download_loop w e 0 (u1 :: urls1) 0 _); reflexivity.
Qed.

Lemma filter_all {A} (p : A -> bool) l :
  Forall (fun x => p x = true) l -> List.filter p l = l.
Proof.
  induction 1 as [|x l Hx _ IH]; [reflexivity|]. cbn. rewrite Hx, IH. reflexivity.
Qed.

Lemma filter_none {A} (p : A -> bool) l :
  Forall (fun x => p x = false) l -> List.filter p l = [].
Proof.
  induction 1 as [|x l Hx _ IH]; [reflexivity|]. cbn. rewrite Hx, IH. reflexivity.
Qed.

Lemma search_not_image evs :
  Forall (fun ev => is_search_request ev = true) evs ->
  Forall (fun ev => is_image_request ev = false) evs.
Proof. apply List.Forall_impl. intros [u|u]; [reflexivity | discriminate]. Qed.

Lemma image_not_search evs :
  Forall (fun ev => is_image_request ev = true) evs ->
  Forall (fun ev => is_search_request ev = false) evs.
Proof. apply List.Forall_impl. intros [u|u]; [discriminate | reflexivity]. Qed.

Lemma image_not_yandex evs :
  Forall (fun ev => is_image_request ev = true) evs ->
  Forall (fun ev => is_yandex_request ev = false) evs.
Proof. apply List.Forall_impl. intros [u|u]; [discriminate | reflexivity]. Qed.



(** X9.  [process_risk_item] removes no file: every path that held a file
    before the call holds one after it. *)
Theorem process_risk_item_removes_nothing (w : world)
    (item : gmap string pystr)
    (culture_ru culture_en risk_type search_engine : pystr) (max_images : Z)
    (s : state) (q : pystr) :
  is_Some (files s !! q) ->
  is_Some (files (snd (process_risk_item w item culture_ru culture_en
                         risk_type search_engine max_images s)) !! q).
Proof.
  intros Hq.
  destruct (process_risk_item_shape w item culture_ru culture_en risk_type
              search_engine max_images s)
    as [->|[evs [urls [_ [_ [_ [_ [_ ->]]]]]]]]; [exact Hq|].
  cbn [snd].
  refine (proj1 (proj2 (download_loop_effects w _ urls 0 0%Z (State _ _ _)))
            q _).
  exact Hq.
Qed.

Lemma process_risk_item_removes_nothing_witness :
  let w := World (u8 "/img") (fun _ => Some (200%Z, u8 "'https://e.com/a.jpg'"))
             (fun _ => Some (Response 200 (u8 "image/jpeg") (repeat 7 1000)))
             (fun _ => true) (fun _ => true) true in
  let item : gmap string pystr :=
    {[ "name"%string := u8 "Ржавчина"; "english_name"%string := u8 "rust" ]} in
  let s := State {[ u8 "/img/diseases/cereals/rust/a_01.jpg" := [1; 2] ]} [] [] in
  is_Some (files (snd (process_risk_item w item (u8 "пшеница") (u8 "cereals")
                         (u8 "diseases") (u8 "google") 3 s))
             !! u8 "/img/diseases/cereals/rust/a_01.jpg").
Proof.
  intros w item s.
  apply process_risk_item_removes_nothing. vm_compute. eauto.
Defined.

(** X10.  The requests of one record are bounded: a call of
    [process_risk_item] adds to the trace at most three searches and at
    most [max_images] downloads, and nothing when [max_images] is below
    one. *)
Theorem process_risk_item_request_budget (w : world)
    (item : gmap string pystr)
    (culture_ru culture_en risk_type search_engine : pystr) (max_images : Z)
    (s : state) :
  exists evs,
    net (snd (process_risk_item w item culture_ru culture_en risk_type
                search_engine max_images s)) = net s ++ evs
    /\ (length (List.filter is_search_request evs) <= 3)%nat
    /\ (length (List.filter is_image_request evs) <= Z.to_nat max_images)%nat.
Proof.
  destruct (process_risk_item_shape w item culture_ru culture_en risk_type
              search_engine max_images s)
    as [->|[evs [urls [Hmax [Hf [Hl [_ [Hn ->]]]]]]]].
  - exists []. rewrite app_nil_r. repeat split; cbn; lia.
  - cbn [snd].
    destruct (proj1 (proj2 (proj2 (download_loop_effects w
                (LoopEnv risk_type culture_en
                   (item_guid item risk_type culture_en (english_name_of item))
                   (risk_dir_of w risk_type culture_en (english_name_of item))
                   (size (glob_star (files s)
                      (risk_dir_of w risk_type culture_en
                         (english_name_of item)))) max_images)
                urls 0 0%Z (State (files s) (net s ++ evs) (saved s))))))
      as [evs' [Hnet [Hf' Hl']]].
    cbv zeta in Hnet. cbn [net] in Hnet.
    exists (evs ++ evs'). rewrite Hnet, app_assoc. split; [reflexivity|].
    rewrite !List.filter_app.
    rewrite (filter_all _ _ Hf), (filter_none _ _ (image_not_search _ Hf')).
    rewrite (filter_none _ _ (search_not_image _ Hf)), (filter_all _ _ Hf').
    rewrite app_nil_r. cbn [app]. split; lia.
Qed.

(** X11.  With the Yandex module not importable no request goes to
    Yandex, whatever engine is asked for. *)
Theorem process_risk_item_without_yandex (w : world)
    (item : gmap string pystr)
    (culture_ru culture_en risk_type search_engine : pystr) (max_images : Z)
    (s : state) :
  yandex_importable w = false ->
  exists evs,
    net (snd (process_risk_item w item culture_ru culture_en risk_type
                search_engine max_images s)) = net s ++ evs
    /\ Forall (fun ev => is_yandex_request ev = false) evs.
Proof.
  intros Hy.
  destruct (process_risk_item_shape w item culture_ru culture_en risk_type
              search_engine max_images s)
    as [->|[evs [urls [_ [_ [_ [Hny [_ ->]]]]]]]].
  - exists []. rewrite app_nil_r. split; [reflexivity | constructor].
  - cbn [snd].
    destruct (proj1 (proj2 (proj2 (download_loop_effects w
                (LoopEnv risk_type culture_en
                   (item_guid item risk_type culture_en (english_name_of item))
                   (risk_dir_of w risk_type culture_en (english_name_of item))
                   (size (glob_star (files s)
                      (risk_dir_of w risk_type culture_en
                         (english_name_of item)))) max_images)
                urls 0 0%Z (State (files s) (net s ++ evs) (saved s))))))
      as [evs' [Hnet [Hf' _]]].
    cbv zeta in Hnet. cbn [net] in Hnet.
    exists (evs ++ evs'). rewrite Hnet, app_assoc. split; [reflexivity|].
    apply Forall_app. split; [apply Hny; exact Hy | apply image_not_yandex; exact Hf'].
Qed.

Lemma process_risk_item_without_yandex_witness :
  let w := World (u8 "/img") (fun _ => Some (200%Z, u8 "'https://e.com/a.jpg'"))
             (fun _ => Some (Response 200 (u8 "image/jpeg") (repeat 7 1000)))
             (fun _ => true) (fun _ => true) false in
  let item : gmap string pystr :=
    {[ "name"%string := u8 "Ржавчина"; "english_name"%string := u8 "rust" ]} in
  exists evs,
    net (snd (process_risk_item w item (u8 "пшеница") (u8 "cereals")
                (u8 "diseases") (u8 "both") 3 (State ∅ [] []))) = [] ++ evs
    /\ Forall (fun ev => is_yandex_request ev = false) evs.
Proof.
  intros w item.
  exact (process_risk_item_without_yandex w item (u8 "пшеница") (u8 "cereals")
           (u8 "diseases") (u8 "both") 3 (State ∅ [] []) eq_refl).
Defined.

(** The files reported by the loop stay as they were written: later
    candidates write under other numbers. *)
Lemma download_loop_present w e l :
  forall i n s,
    (forall url path, In (url, path) (saved s) ->
       exists r j, (j < i)%nat /\ urlopen w url = Some r
         /\ files s !! path = Some (body r)
         /\ (1000 <= length (body r))%nat
         /\ embedded_number path = Some (file_number e j)) ->
    forall url path,
      In (url, path) (saved (snd (download_loop w e i l n s))) ->
      exists r, urlopen w url = Some r
        /\ files (snd (download_loop w e i l n s)) !! path = Some (body r)
        /\ (1000 <= length (body r))%nat.
Proof.
  induction l as [|u rest IH]; intros i n s Hinv url path Hin;
    cbn [download_loop] in *.
  { destruct (Hinv url path Hin) as [r [j [_ [Hr [Hf [Hl _]]]]]]. eauto. }
  destruct (Z.of_nat (env_existing e) + n >=? env_max_images e)%Z.
  { destruct (Hinv url path Hin) as [r [j [_ [Hr [Hf [Hl _]]]]]]. eauto. }
  destruct (exists_file s (save_path_of e i u)).
  { eapply IH; [|exact Hin]. intros url' path' Hin'.
    destruct (Hinv url' path' Hin') as [r [j [Hj H]]].
    exists r, j. split; [lia | exact H]. }
  pose proof (download_image_outcome w u (save_path_of e i u) s) as Hd.
  destruct (download_image w u (save_path_of e i u) s) as [ok s1].
  cbv zeta in Hd. cbn [fst snd] in Hd. destruct Hd as [_ Hd].
  eapply IH; [|exact Hin]. clear Hin url path.
  assert (Hkeep : forall (path : pystr) (r0 : response) j,
    (j < i)%nat -> embedded_number path = Some (file_number e j) ->
    files s !! path = Some (body r0) ->
    forall r1 data,
      <[resolve_path (save_path_of e i u) (extension_of (content_type r1))
          := data]> (files s) !! path = Some (body r0)).
  { intros path r0 j Hj Hnum Hf r1 data.
    rewrite lookup_insert_ne; [exact Hf|].
    intros Heq. rewrite <- Heq, embedded_number_resolved in Hnum.
    injection Hnum as Hnum. apply file_number_inj in Hnum. lia. }
  intros url path Hin.
  destruct Hd as [[_ [Hsv Hfiles]]|[r [Hr [_ [Hlen [Hsv Hfiles]]]]]].
  - rewrite Hsv in Hin.
    destruct (Hinv url path Hin) as [r0 [j [Hj [Hr0 [Hf [Hl Hnum]]]]]].
    exists r0, j. split; [lia|]. split; [exact Hr0|].
    split; [|split; assumption].
    destruct Hfiles as [->|[r1 [_ ->]]]; [exact Hf|].
    eapply Hkeep; eassumption.
  - rewrite Hsv in Hin. apply in_app_or in Hin.
    destruct Hin as [Hin|[Heq|[]]].
    + destruct (Hinv url path Hin) as [r0 [j [Hj [Hr0 [Hf [Hl Hnum]]]]]].
      exists r0, j. split; [lia|]. split; [exact Hr0|].
      split; [|split; assumption].
      rewrite Hfiles. eapply Hkeep; eassumption.
    + injection Heq as <- <-. exists r, i. split; [lia|]. split; [exact Hr|].
      split; [rewrite Hfiles; apply lookup_insert_eq|].
      split; [exact Hlen | apply embedded_number_resolved].
Qed.

(** X12.  After a call of [process_risk_item] the number it counted is the
    number of downloads reported, and every file reported is in the file
    system with the whole payload of its response, of 1000 octets or more:
    no later candidate of the run has written over it. *)
Theorem process_risk_item_downloads_kept (w : world)
    (item : gmap string pystr)
    (culture_ru culture_en risk_type search_engine : pystr) (max_images : Z)
    (s : state) :
  saved s = [] ->
  let out := process_risk_item w item culture_ru culture_en risk_type
               search_engine max_images s in
  (forall n, fst out = Some n -> Z.of_nat (length (saved (snd out))) = n)
  /\ (forall url path, In (url, path) (saved (snd out)) ->
        exists r, urlopen w url = Some r
          /\ files (snd out) !! path = Some (body r)
          /\ (1000 <= length (body r))%nat).
Proof.
  intros Hs out. subst out.
  destruct (process_risk_item_shape w item culture_ru culture_en risk_type
              search_engine max_images s)
    as [->|[evs [urls [_ [_ [_ [_ [_ ->]]]]]]]].
  - cbn [fst snd]. rewrite Hs. split; [discriminate | intros ? ? []].
  - cbn [fst snd]. split.
    + intros n Hn.
      destruct (proj2 (proj2 (proj2 (download_loop_effects w
                  (LoopEnv risk_type culture_en
                     (item_guid item risk_type culture_en (english_name_of item))
                     (risk_dir_of w risk_type culture_en (english_name_of item))
                     (size (glob_star (files s)
                        (risk_dir_of w risk_type culture_en
                           (english_name_of item)))) max_images)
                  urls 0 0%Z (State (files s) (net s ++ evs) (saved s))))))
        as [news [Hsv Hlen]].
      cbv zeta in Hsv, Hlen. cbn [saved] in Hsv.
      rewrite Hsv, Hs. cbn [app]. rewrite Hlen.
      destruct urls; [discriminate|]. injection Hn as <-. apply Z.sub_0_r.
    + apply download_loop_present. cbn [saved]. rewrite Hs. intros ? ? [].
Qed.

Lemma process_risk_item_downloads_kept_witness :
  let w := World (u8 "/img") (fun _ => Some (200%Z, u8 "'https://e.com/a.jpg' 'https://e.com/b.png'"))
             (fun _ => Some (Response 200 (u8 "image/jpeg") (repeat 7 1000)))
             (fun _ => true) (fun _ => true) true in
  let item : gmap string pystr :=
    {[ "name"%string := u8 "Ржавчина"; "english_name"%string := u8 "rust" ]} in
  let out := process_risk_item w item (u8 "пшеница") (u8 "cereals")
               (u8 "diseases") (u8 "google") 3 (State ∅ [] []) in
  Z.of_nat (length (saved (snd out))) = 2%Z.
Proof.
  intros w item out.
  pose proof (process_risk_item_downloads_kept w item (u8 "пшеница")
                (u8 "cereals") (u8 "diseases") (u8 "google") 3
                (State ∅ [] []) eq_refl) as H.
  cbv zeta in H. destruct H as [H _]. apply H. vm_compute. reflexivity.
Defined.

(** X13.  When neither the query nor the shorter alternative query brings
    a page of results, the record is given up after exactly these two
    searches, in this order, without a download and without a change to
    the file system (engine google). *)
Theorem process_risk_item_gives_up (w : world) (item : gmap string pystr)
    (culture_ru culture_en risk_type : pystr) (max_images : Z) (s : state) :
  let risk_name_ru := strip (item_get item "name") in
  let risk_dir := risk_dir_of w risk_type culture_en (english_name_of item) in
  let query := create_search_query risk_name_ru culture_ru risk_type s_google in
  let alt := alt_query risk_name_ru culture_ru in
  risk_name_ru <> [] ->
  can_mkdir w risk_dir = true ->
  (Z.of_nat (size (glob_star (files s) risk_dir)) < max_images)%Z ->
  request_failed w (google_url query) = true ->
  request_failed w (google_url alt) = true ->
  process_risk_item w item culture_ru culture_en risk_type s_google
                    max_images s
  = (None, State (files s)
             (net s ++ [SearchRequest (google_url query);
                        SearchRequest (google_url alt)])
             (saved s)).
Proof.
  intros risk_name_ru risk_dir query alt Hname Hmk Hlt Hq Ha.
  unfold process_risk_item. fold risk_name_ru. fold risk_dir.
  apply pystr_eqb_neq in Hname. rewrite Hname, Hmk. cbn [negb].
  destruct (Z.geb_spec (Z.of_nat (size (glob_star (files s) risk_dir)))
                       max_images) as [Hge|_]; [lia|].
  fold query. fold alt.
  assert (Hfail : forall q s0, request_failed w (google_url q) = true ->
            get_google_image_urls w q max_images s0
            = ([], log_request (SearchRequest (google_url q)) s0)).
  { intros q s0 Hf. unfold get_google_image_urls, search_adapter.
    fold (google_url q). unfold request_failed in Hf.
    destruct (requests_get w (google_url q)) as [[st text]|]; [|reflexivity].
    rewrite Hf. reflexivity. }
  unfold search_urls, search_urls_alt.
  change (pystr_eqb (lower s_google) s_google) with true.
  change (pystr_eqb (lower s_google) s_yandex) with false. cbv iota.
  rewrite (Hfail query s Hq).
  rewrite (Hfail alt _ Ha).
  unfold log_request. cbn [files net saved]. rewrite <- app_assoc. reflexivity.
Qed.

Lemma process_risk_item_gives_up_witness :
  let w := World (u8 "/img") (fun _ => None)
             (fun _ => Some (Response 200 (u8 "image/jpeg") (repeat 7 1000)))
             (fun _ => true) (fun _ => true) true in
  let item : gmap string pystr :=
    {[ "name"%string := u8 "Ржавчина"; "english_name"%string := u8 "rust" ]} in
  fst (process_risk_item w item (u8 "пшеница") (u8 "cereals") (u8 "diseases")
         s_google 3 (State ∅ [] [])) = None.
Proof.
  intros w item.
  rewrite (process_risk_item_gives_up w item (u8 "пшеница") (u8 "cereals")
             (u8 "diseases") 3 (State ∅ [] []));
    [reflexivity | vm_compute; discriminate | reflexivity
    | vm_compute; reflexivity | reflexivity | reflexivity].
Defined.

(** ** Yandex first, then Google *)



(** ** Batches *)

Lemma process_risk_item_satisfied w item culture_ru culture_en risk_type
    search_engine max_images s :
  (max_images
     <= Z.of_nat (size (glob_star (files s)
          (risk_dir_of w risk_type culture_en (english_name_of item)))))%Z ->
  process_risk_item w item culture_ru culture_en risk_type search_engine
                    max_images s = (None, s).
Proof.
  intros Hcap. unfold process_risk_item.
  destruct (pystr_eqb (strip (item_get item "name")) []); [reflexivity|].
  destruct (can_mkdir w _); cbn [negb]; [|reflexivity].
  destruct (Z.geb_spec
    (Z.of_nat (size (glob_star (files s)
       (risk_dir_of w risk_type culture_en (english_name_of item)))))
    max_images) as [_|Hlt]; [reflexivity | lia].
Qed.

Lemma process_items_satisfied w culture_ru culture_en risk_type search_engine
    max_images data s :
  Forall (fun item =>
    (max_images
       <= Z.of_nat (size (glob_star (files s)
            (risk_dir_of w risk_type culture_en (english_name_of item)))))%Z)
    data ->
  forall k,
    process_items w culture_ru culture_en risk_type search_engine max_images
                  data k s = ((k + length data)%nat, s).
Proof.
  induction 1 as [|item data Hitem _ IH]; intros k; cbn [process_items length].
  - rewrite Nat.add_0_r. reflexivity.
  - rewrite (process_risk_item_satisfied _ _ _ _ _ _ _ _ Hitem).
    rewrite IH. f_equal. lia.
Qed.

(** X15.  Running a table again is idempotent: when the directory of every
    row already holds at least [max_images] entries, [process_csv_file]
    goes through all the rows without a request and without a change to
    the file system. *)
Theorem process_csv_file_idempotent (w : world) (file_stem : pystr)
    (data : list (gmap string pystr)) (search_engine : pystr) (max_images : Z)
    (s : state) :
  let info := extract_culture_risk_info file_stem in
  Forall (fun item =>
    (max_images
       <= Z.of_nat (size (glob_star (files s)
            (risk_dir_of w (snd info) (snd (fst info))
                         (english_name_of item)))))%Z) data ->
  process_csv_file w file_stem data search_engine max_images s
  = (length data, s).
Proof.
  intros info H. unfold process_csv_file. fold info.
  destruct info as [[culture_ru culture_en] risk_type]. cbn [fst snd] in H.
  apply (process_items_satisfied _ _ _ _ _ _ _ _ H 0%nat).
Qed.

Lemma process_csv_file_idempotent_witness :
  let w := World (u8 "/img") (fun _ => Some (200%Z, u8 "'https://e.com/a.jpg'"))
             (fun _ => Some (Response 200 (u8 "image/jpeg") (repeat 7 1000)))
             (fun _ => true) (fun _ => true) true in
  let data : list (gmap string pystr) :=
    [ {[ "name"%string := u8 "Ржавчина"; "english_name"%string := u8 "rust" ]};
      {[ "name"%string := u8 "Головня"; "english_name"%string := u8 "smut" ]} ] in
  let s := State {[ u8 "/img/diseases/cereals/rust/a_01.jpg" := [1];
                    u8 "/img/diseases/cereals/smut/b_01.jpg" := [2] ]} [] [] in
  process_csv_file w (u8 "diseases_пшеница_cereals") data (u8 "google") 1 s
  = (2%nat, s).
Proof.
  intros w data s.
  apply process_csv_file_idempotent.
  repeat constructor; apply Z.leb_le; vm_compute; reflexivity.
Defined.









(** ** Converter *)

Lemma span_spec p s a b :
  span p s = (a, b) -> s = a ++ b /\ forallb p a = true.
Proof.
  revert a b. induction s as [|c s IH]; intros a b H; cbn in H.
  - injection H as <- <-. split; reflexivity.
  - destruct (p c) eqn:Ec.
    + destruct (span p s) as [a' b'] eqn:E. injection H as <- <-.
      destruct (IH a' b' eq_refl) as [-> Ha]. split; [reflexivity|].
      cbn. rewrite Ec. exact Ha.
    + injection H as <- <-. split; reflexivity.
Qed.

Lemma span_stop p d c r :
  forallb p d = true -> p c = false -> span p (d ++ c :: r) = (d, c :: r).
Proof.
  intros Hd Hc. induction d as [|x d IH]; cbn.
  - rewrite Hc. reflexivity.
  - cbn in Hd. apply andb_prop in Hd. destruct Hd as [Hx Hd].
    rewrite Hx, (IH Hd). reflexivity.
Qed.

Lemma span_all p l : forallb p l = true -> span p l = (l, []).
Proof.
  intros Hl. induction l as [|x l IH]; cbn; [reflexivity|].
  cbn in Hl. apply andb_prop in Hl. destruct Hl as [Hx Hl].
  rewrite Hx, (IH Hl). reflexivity.
Qed.

Lemma forallb_not_in (p : N -> bool) l c :
  forallb p l = true -> p c = false -> ~ In c l.
Proof.
  intros Hl Hc Hin. rewrite forallb_forall in Hl. apply Hl in Hin. congruence.
Qed.

Lemma is_digit_decimal c : is_digit c = true -> is_decimal c = true.
Proof.
  unfold is_digit, is_decimal, decimal_runs. intros H. cbn [existsb].
  change (0x30 + 10 - 1) with 0x39. rewrite H. reflexivity.
Qed.

Lemma forallb_digit_decimal d :
  forallb is_digit d = true -> forallb is_decimal d = true.
Proof.
  rewrite !forallb_forall. intros H c Hc. apply is_digit_decimal, H, Hc.
Qed.

Lemma number_tail_underscore r : In UNDERSCORE r -> number_tail r = None.
Proof.
  intros Hin. unfold number_tail.
  destruct (span is_decimal r) as [ds r1] eqn:E1.
  apply span_spec in E1. destruct E1 as [-> Hds].
  destruct ds as [|d ds]; [reflexivity|].
  destruct r1 as [|c r2]; [reflexivity|].
  destruct (N.eqb_spec c DOT) as [->|_]; [|reflexivity].
  destruct (span is_lower_letter r2) as [ls r3] eqn:E2.
  apply span_spec in E2. destruct E2 as [-> Hls].
  destruct ls as [|l ls]; [reflexivity|].
  destruct (pystr_eqb r3 [] || pystr_eqb r3 [0x0A]) eqn:E3; [|reflexivity].
  exfalso. apply in_app_or in Hin. destruct Hin as [Hin|Hin].
  { revert Hin. apply (forallb_not_in is_decimal); [exact Hds | reflexivity]. }
  destruct Hin as [Hin|Hin]; [discriminate|].
  apply in_app_or in Hin. destruct Hin as [Hin|Hin].
  { revert Hin. apply (forallb_not_in is_lower_letter); [exact Hls | reflexivity]. }
  apply orb_prop in E3. destruct E3 as [E3|E3]; apply pystr_eqb_eq in E3;
    subst r3; cbn in Hin; intuition discriminate.
Qed.

Lemma number_match_suffix prefix d ext :
  forallb is_digit d = true -> d <> [] ->
  forallb is_lower_letter ext = true -> ext <> [] ->
  number_match (prefix ++ UNDERSCORE :: d ++ DOT :: ext) = Some d.
Proof.
  intros Hd Hdne He Hene. apply forallb_digit_decimal in Hd.
  assert (Htail : number_tail (d ++ DOT :: ext) = Some d).
  { unfold number_tail.
    rewrite (span_stop is_decimal d DOT ext Hd eq_refl).
    destruct d as [|x d]; [congruence|].
    rewrite N.eqb_refl, (span_all is_lower_letter ext He).
    destruct ext as [|y ext]; [congruence|]. reflexivity. }
  induction prefix as [|c prefix IH].
  - cbn [app number_match]. rewrite N.eqb_refl, Htail. reflexivity.
  - cbn [app number_match].
    destruct (c =? UNDERSCORE); [|exact IH].
    rewrite number_tail_underscore; [exact IH|].
    apply in_or_app. right. now left.
Qed.

Lemma format_02d_digits n : forallb is_digit (format_02d n) = true.
Proof.
  unfold format_02d.
  assert (forallb is_digit (decimal n) = true)
    by (apply digits_fuel_digits; reflexivity).
  destruct (length (decimal n) <? 2)%nat; [cbn; assumption | assumption].
Qed.

Lemma format_02d_nonempty n : format_02d n <> [].
Proof.
  intros H. pose proof (parse_format_02d n) as Hp. rewrite H in Hp. discriminate.
Qed.

(** X18.  The converter reads the crawler's sequence number back: on a
    file name written by the crawler, with an extension of lower-case
    letters, the number pattern of the converter matches the digits of
    [NN], whatever the risk type, the crop and the GUID are, and these
    digits denote the file number. *)
Theorem number_match_reads_file_number (risk_type culture_en guid ext : pystr)
    (n : N) :
  forallb is_lower_letter ext = true -> ext <> [] ->
  number_match (file_name risk_type culture_en guid n (DOT :: ext))
    = Some (format_02d n)
  /\ parse_decimal (format_02d n) = Some n.
Proof.
  intros He Hene. split; [|apply parse_format_02d].
  unfold file_name.
  replace (risk_type ++ [UNDERSCORE] ++ lower culture_en ++ [UNDERSCORE]
             ++ guid ++ [UNDERSCORE] ++ format_02d n ++ DOT :: ext)
    with ((risk_type ++ [UNDERSCORE] ++ lower culture_en ++ [UNDERSCORE]
             ++ guid) ++ UNDERSCORE :: format_02d n ++ DOT :: ext)
    by (rewrite <- !app_assoc; reflexivity).
  apply number_match_suffix;
    [apply format_02d_digits | apply format_02d_nonempty | exact He | exact Hene].
Qed.

Lemma number_match_reads_file_number_witness :
  number_match (file_name (u8 "diseases") (u8 "cereals")
                  (u8 "72a795b3-a833-56bd-b712-23bfba2f5ec2") 7 (u8 ".jpg"))
    = Some (u8 "07").
Proof.
  exact (proj1 (number_match_reads_file_number (u8 "diseases") (u8 "cereals")
                  (u8 "72a795b3-a833-56bd-b712-23bfba2f5ec2") (u8 "jpg") 7
                  eq_refl ltac:(discriminate))).
Defined.

Lemma replace_from_stem o new stem x :
  ~ In DOT stem ->
  replace_from (DOT :: o) new (stem ++ x) 0
  = stem ++ replace_from (DOT :: o) new x 0.
Proof.
  intros Hs. induction stem as [|c stem IH]; [reflexivity|].
  cbn [app replace_from].
  assert (Hc : startswith (DOT :: o) (c :: stem ++ x) = false).
  { cbn [startswith]. destruct (N.eqb_spec DOT c) as [<-|_]; [|reflexivity].
    exfalso. apply Hs. now left. }
  rewrite Hc. f_equal. apply IH. intros H. apply Hs. now right.
Qed.

Lemma jpg_path_of_stem stem x :
  ~ In DOT stem -> jpg_path_of (stem ++ x) = stem ++ jpg_path_of x.
Proof.
  intros Hs. unfold jpg_path_of, replace, s_dot_webp, s_dot_WEBP.
  rewrite !replace_from_stem by exact Hs. reflexivity.
Qed.

(** X19.  A file named with the extension webp or WEBP and no other dot in
    its path is converted in place when the image can be encoded, saved
    and removed: the result is the same path with the extension jpg, that
    path holds the JPEG encoding of the file, the file itself is removed
    if [delete_original] is set and kept otherwise. *)
Theorem convert_webp_to_jpg_converts (im : imaging) (stem ext : pystr)
    (data jpg : bytes)
    (delete_original : bool) (fs : gmap pystr bytes) :
  ~ In DOT stem ->
  ext = s_dot_webp \/ ext = s_dot_WEBP ->
  fs !! (stem ++ ext) = Some data ->
  to_jpeg im data = Some jpg ->
  can_save im (stem ++ s_dot_jpg) = true ->
  can_remove im (stem ++ ext) = true ->
  convert_webp_to_jpg im (stem ++ ext) delete_original fs
  = (Some (stem ++ s_dot_jpg),
     if delete_original
     then delete (stem ++ ext) (<[stem ++ s_dot_jpg := jpg]> fs)
     else <[stem ++ s_dot_jpg := jpg]> fs).
Proof.
  intros Hs Hext Hf Hj Hsave Hrm. unfold convert_webp_to_jpg.
  assert (Hend : endswith s_dot_webp (lower (stem ++ ext)) = true).
  { rewrite lower_app. destruct Hext as [->| ->]; apply endswith_app. }
  assert (Hp : jpg_path_of (stem ++ ext) = stem ++ s_dot_jpg).
  { rewrite jpg_path_of_stem by exact Hs.
    destruct Hext as [->| ->]; reflexivity. }
  rewrite Hend. cbn [negb]. unfold pystr in *.
  rewrite Hf, Hp, Hj, Hsave, Hrm. destruct delete_original; reflexivity.
Qed.

Lemma convert_webp_to_jpg_converts_witness :
  let im := Imaging (fun b => Some (0xFF :: b)) (fun _ => true)
              (fun _ => true) (fun _ _ => true) in
  let fs : gmap pystr bytes := {[ u8 "/img/rust_01.webp" := [1; 2; 3] ]} in
  convert_webp_to_jpg im (u8 "/img/rust_01" ++ s_dot_webp) true fs
  = (Some (u8 "/img/rust_01" ++ s_dot_jpg),
     delete (u8 "/img/rust_01" ++ s_dot_webp)
            (<[u8 "/img/rust_01" ++ s_dot_jpg := [0xFF; 1; 2; 3]]> fs)).
Proof.
  intros im fs.
  refine (convert_webp_to_jpg_converts im (u8 "/img/rust_01") s_dot_webp
            [1; 2; 3] [0xFF; 1; 2; 3] true fs _ (or_introl eq_refl)
            _ eq_refl eq_refl eq_refl).
  - vm_compute. intuition discriminate.
  - vm_compute. reflexivity.
Defined.

Lemma lower_cp_letter c x :
  in_range 0x61 0x7A x = true -> lower_cp c = x -> c = x \/ c + 32 = x.
Proof.
  unfold lower_cp. intros Hx.
  destruct (in_range_cases 0x61 0x7A x) as [[Hx' _]|[_ E]]; [|congruence].
  destruct (in_range_cases 0x41 0x5A c) as [[H1 ->]|[H1 ->]]; [now right|].
  destruct (in_range_cases 0x410 0x42F c) as [[H2 ->]|[H2 ->]]; [lia|].
  destruct (in_range_cases 0x400 0x40F c) as [[H3 ->]|[H3 ->]]; [lia|].
  now left.
Qed.

(** X20.  An extension webp written in mixed case (WebP, Webp, ...) passes
    the check of the extension but is not replaced in the path: the JPEG
    encoding is saved over the file itself, and with [delete_original] set
    the file is then removed, so that the path returned holds no file
    (the image can be encoded, saved and removed). *)
Theorem convert_webp_to_jpg_mixed_case (im : imaging) (stem ext : pystr)
    (data jpg : bytes)
    (fs : gmap pystr bytes) :
  ~ In DOT stem ->
  lower ext = s_dot_webp -> ext <> s_dot_webp -> ext <> s_dot_WEBP ->
  fs !! (stem ++ ext) = Some data ->
  to_jpeg im data = Some jpg ->
  can_save im (stem ++ ext) = true ->
  can_remove im (stem ++ ext) = true ->
  convert_webp_to_jpg im (stem ++ ext) true fs
    = (Some (stem ++ ext), delete (stem ++ ext) fs)
  /\ convert_webp_to_jpg im (stem ++ ext) false fs
     = (Some (stem ++ ext), <[stem ++ ext := jpg]> fs).
Proof.
  intros Hs Hlow Hne1 Hne2 Hf Hj Hsave Hrm.
  assert (Hend : endswith s_dot_webp (lower (stem ++ ext)) = true)
    by (rewrite lower_app, Hlow; apply endswith_app).
  assert (Hp : jpg_path_of (stem ++ ext) = stem ++ ext).
  { rewrite jpg_path_of_stem by exact Hs. f_equal.
    destruct ext as [|c0 [|c1 [|c2 [|c3 [|c4 [|c5 ext]]]]]]; try discriminate.
    cbn in Hlow. injection Hlow as H0 H1 H2 H3 H4.
    apply lower_cp_dot in H0. subst c0.
    apply lower_cp_letter in H1; [|reflexivity].
    apply lower_cp_letter in H2; [|reflexivity].
    apply lower_cp_letter in H3; [|reflexivity].
    apply lower_cp_letter in H4; [|reflexivity].
    assert (Hc : forall c x, c + 32 = x -> c = x - 32) by (intros; lia).
    destruct H1 as [->|H1]; [|apply Hc in H1; subst c1];
    destruct H2 as [->|H2]; [|apply Hc in H2; subst c2| |apply Hc in H2; subst c2];
    destruct H3 as [->|H3]; try (apply Hc in H3; subst c3);
    destruct H4 as [->|H4]; try (apply Hc in H4; subst c4);
    first [ reflexivity | exfalso; apply Hne1; reflexivity
          | exfalso; apply Hne2; reflexivity ]. }
  unfold convert_webp_to_jpg. rewrite Hend. cbn [negb]. unfold pystr in *.
  rewrite Hf, Hp, Hj, Hsave, Hrm.
  split; [|reflexivity]. f_equal. apply delete_insert_eq.
Qed.

Lemma convert_webp_to_jpg_mixed_case_witness :
  let im := Imaging (fun b => Some (0xFF :: b)) (fun _ => true)
              (fun _ => true) (fun _ _ => true) in
  let fs : gmap pystr bytes := {[ u8 "/img/rust_01.WebP" := [1; 2; 3] ]} in
  snd (convert_webp_to_jpg im (u8 "/img/rust_01" ++ u8 ".WebP") true fs)
    !! u8 "/img/rust_01.WebP" = None.
Proof.
  intros im fs.
  rewrite (proj1 (convert_webp_to_jpg_mixed_case im (u8 "/img/rust_01")
                    (u8 ".WebP") [1; 2; 3] [0xFF; 1; 2; 3] fs
                    ltac:(vm_compute; intuition discriminate) eq_refl
                    ltac:(vm_compute; discriminate)
                    ltac:(vm_compute; discriminate)
                    ltac:(vm_compute; reflexivity) eq_refl eq_refl eq_refl)).
  vm_compute. reflexivity.
Defined.

(** ** Paths *)

Lemma basename_rev_plain r x :
  ~ In SLASH r -> basename_rev (r ++ SLASH :: x) = r.
Proof.
  induction r as [|c r IH]; intros H; cbn [app basename_rev].
  - reflexivity.
  - destruct (N.eqb_spec c 0x2F) as [->|_]; [exfalso; apply H; now left|].
    f_equal. apply IH. intros Hin. apply H. now right.
Qed.

Lemma basename_rev_all r : ~ In SLASH r -> basename_rev r = r.
Proof.
  induction r as [|c r IH]; intros H; cbn [basename_rev]; [reflexivity|].
  destruct (N.eqb_spec c 0x2F) as [->|_]; [exfalso; apply H; now left|].
  f_equal. apply IH. intros Hin. apply H. now right.
Qed.

Lemma plain_rev f : plain f -> ~ In SLASH (rev f).
Proof. intros H Hin. apply H. apply in_rev. exact Hin. Qed.

Lemma basename_join d f : plain f -> basename (d ++ SLASH :: f) = f.
Proof.
  intros H. unfold basename. rewrite rev_app_distr. cbn [rev].
  rewrite <- app_assoc. cbn [app].
  rewrite basename_rev_plain by (apply plain_rev, H). apply rev_involutive.
Qed.

Lemma basename_plain f : plain f -> basename f = f.
Proof.
  intros H. unfold basename.
  rewrite basename_rev_all by (apply plain_rev, H). apply rev_involutive.
Qed.

Lemma startswith_slash_plain f : plain f -> startswith [SLASH] f = false.
Proof.
  intros H. destruct f as [|c f]; [reflexivity|]. cbn [startswith].
  destruct (N.eqb_spec SLASH c) as [<-|_]; [|reflexivity].
  exfalso. apply H. now left.
Qed.

Lemma basename_posix_join root file :
  plain file -> basename (posix_join root file) = file.
Proof.
  intros H. unfold posix_join. rewrite startswith_slash_plain by exact H.
  destruct (pystr_eqb root [] || endswith [SLASH] root) eqn:E.
  - apply orb_prop in E. destruct E as [E|E].
    + apply pystr_eqb_eq in E. subst root. apply basename_plain, H.
    + apply endswith_inv in E. destruct E as [t ->].
      rewrite <- app_assoc. apply basename_join, H.
  - apply basename_join, H.
Qed.

Lemma posix_dirname_join d c f :
  c <> SLASH -> plain f -> posix_dirname ((d ++ [c]) ++ SLASH :: f) = d ++ [c].
Proof.
  intros Hc Hf. unfold posix_dirname.
  rewrite rev_app_distr. cbn [rev]. rewrite <- (app_assoc (rev f)). cbn [app].
  rewrite basename_rev_plain by (apply plain_rev, Hf).
  rewrite length_rev.
  replace (length ((d ++ [c]) ++ SLASH :: f) - length f)%nat
    with (length ((d ++ [c]) ++ [SLASH]) + 0)%nat
    by (rewrite !length_app; cbn [length]; lia).
  replace ((d ++ [c]) ++ SLASH :: f) with (((d ++ [c]) ++ [SLASH]) ++ f)
    by (rewrite <- !app_assoc; reflexivity).
  rewrite firstn_app_2. cbn [firstn]. rewrite app_nil_r. cbv zeta.
  assert (Hall : forallb (fun c0 => c0 =? SLASH) ((d ++ [c]) ++ [SLASH]) = false).
  { rewrite !forallb_app. cbn [forallb].
    destruct (N.eqb_spec c SLASH) as [E|_]; [contradiction|].
    rewrite andb_false_r. reflexivity. }
  rewrite Hall. rewrite !rev_app_distr. cbn [rev app drop_slashes].
  rewrite N.eqb_refl.
  destruct (N.eqb_spec c SLASH) as [E|_]; [contradiction|].
  cbn [rev]. rewrite rev_involutive. reflexivity.
Qed.

Lemma posix_join_plain d c name :
  c <> SLASH -> startswith [SLASH] name = false ->
  posix_join (d ++ [c]) name = (d ++ [c]) ++ SLASH :: name.
Proof.
  intros Hc Hn. unfold posix_join. rewrite Hn.
  assert (E1 : pystr_eqb (d ++ [c]) [] = false).
  { apply pystr_eqb_neq. destruct d; discriminate. }
  assert (E2 : endswith [SLASH] (d ++ [c]) = false).
  { unfold endswith. rewrite rev_app_distr. cbn [rev app startswith].
    destruct (N.eqb_spec SLASH c) as [E|_]; [congruence|reflexivity]. }
  rewrite E1, E2. reflexivity.
Qed.

Lemma split_on_app_any sep a b :
  split_on sep (a ++ sep :: b) = split_on sep a ++ split_on sep b.
Proof.
  induction a as [|c a IH].
  - cbn. destruct (split_on_cons sep b) as [p [ps ->]].
    rewrite N.eqb_refl. reflexivity.
  - cbn [app split_on]. rewrite IH.
    destruct (split_on_cons sep a) as [p [ps ->]]. cbn [app].
    destruct (c =? sep); reflexivity.
Qed.

Lemma ext_rev_plain e x :
  ~ In DOT e -> ext_rev (e ++ DOT :: x) = Some (e ++ [DOT], x).
Proof.
  induction e as [|c e IH]; intros H; cbn [app ext_rev].
  - reflexivity.
  - destruct (N.eqb_spec c 0x2E) as [->|_]; [exfalso; apply H; now left|].
    rewrite IH by (intros Hin; apply H; now right). reflexivity.
Qed.

Lemma splitext_ext_plain stem c ext :
  plain (stem ++ DOT :: ext) -> ~ In DOT ext -> In c stem -> c <> DOT ->
  splitext_ext (stem ++ DOT :: ext) = DOT :: ext.
Proof.
  intros Hp He Hc Hcd. unfold splitext_ext.
  rewrite basename_rev_all by (apply plain_rev, Hp).
  rewrite rev_app_distr. cbn [rev]. rewrite <- app_assoc. cbn [app].
  rewrite ext_rev_plain by (intros Hin; apply He, in_rev, Hin).
  assert (Hall : forallb (fun c0 => c0 =? 0x2E) (rev stem) = false).
  { destruct (forallb (fun c0 => c0 =? 0x2E) (rev stem)) eqn:E; [|reflexivity].
    rewrite forallb_forall in E. apply in_rev in Hc. apply E in Hc.
    apply N.eqb_eq in Hc. contradiction. }
  rewrite Hall, rev_app_distr, rev_involutive. reflexivity.
Qed.

Lemma lower_cp_slash c : lower_cp c = SLASH -> c = SLASH.
Proof.
  unfold lower_cp, in_range, SLASH.
  destruct (N.leb_spec 0x41 c), (N.leb_spec c 0x5A),
           (N.leb_spec 0x410 c), (N.leb_spec c 0x42F),
           (N.leb_spec 0x400 c), (N.leb_spec c 0x40F); cbn [andb]; lia.
Qed.

Lemma lower_plain s : plain s -> plain (lower s).
Proof.
  intros H Hin. apply H. unfold lower in Hin. apply in_map_iff in Hin.
  destruct Hin as [c [Hc Hin]]. apply lower_cp_slash in Hc. subst c. exact Hin.
Qed.

Lemma risk_type_plain part : is_risk_type part = true -> plain part.
Proof.
  unfold is_risk_type. intros H Hin.
  apply existsb_exists in H. destruct H as [r [Hr E]].
  apply pystr_eqb_eq in E. apply (lower_keeps SLASH) in Hin; [|reflexivity].
  rewrite E in Hin. cbn in Hr.
  destruct Hr as [<-|[<-|[<-|[]]]]; cbn in Hin; intuition discriminate.
Qed.

(** ** The second pass of [process_directory] *)

Lemma rename_unnumbered im p fs :
  number_match (basename p) = None ->
  rename_file_according_to_pattern im p fs = (p, fs).
Proof.
  intros H. unfold rename_file_according_to_pattern. cbv zeta.
  destruct (culture_and_disease _) as [culture disease_name].
  rewrite H. reflexivity.
Qed.

Lemma rename_pass_unnumbered im files :
  Forall (fun p => number_match (basename p) = None) files ->
  forall n fs, rename_pass im files n fs = (n, fs).
Proof.
  induction 1 as [|p files Hp _ IH]; intros n fs; cbn [rename_pass];
    [reflexivity|].
  rewrite (rename_unnumbered im p fs Hp).
  assert (E : pystr_eqb p p = true) by (apply pystr_eqb_eq; reflexivity).
  rewrite E. apply IH.
Qed.

Lemma unnumbered_join root files :
  Forall plain files ->
  Forall (fun p => number_match (basename p) = None)
         (map (posix_join root) (List.filter is_unnumbered_jpg files)).
Proof.
  intros Hf. apply List.Forall_forall. intros p Hin.
  apply in_map_iff in Hin. destruct Hin as [file [<- Hin]].
  apply filter_In in Hin. destruct Hin as [Hin Hu].
  rewrite List.Forall_forall in Hf.
  rewrite basename_posix_join by (apply Hf, Hin).
  unfold is_unnumbered_jpg in Hu. apply andb_prop in Hu. destruct Hu as [_ Hu].
  destruct (number_match file); [discriminate|reflexivity].
Qed.

Lemma jpg_files_unnumbered t fs directory recursive :
  (forall root files, In (root, files) (walk t fs directory) ->
     Forall plain files) ->
  Forall plain (listdir t fs directory) ->
  Forall (fun p => number_match (basename p) = None)
         (jpg_files t fs directory recursive).
Proof.
  intros Hw Hl. unfold jpg_files. destruct recursive.
  - apply List.Forall_forall. intros p Hin. apply in_flat_map in Hin.
    destruct Hin as [[root files] [Hin Hp]].
    pose proof (unnumbered_join root files (Hw root files Hin)) as H.
    rewrite List.Forall_forall in H. apply H, Hp.
  - apply unnumbered_join, Hl.
Qed.

(** X21.  The second pass of [process_directory], which is meant to
    rename the JPEG files that carry no number, renames none: it selects
    the files whose name has no number, and for these the renaming stops
    at the undefined name [random] and leaves the file where it is.  With
    [rename] set, the counts logged and the file system are those of the
    first pass.  The names listed by the operating system are plain. *)
Theorem process_directory_second_pass_renames_nothing (t : tree) (im : imaging)
    (directory : pystr) (recursive : bool) (fs : gmap pystr bytes) :
  (forall fs' root files, In (root, files) (walk t fs' directory) ->
     Forall plain files) ->
  (forall fs', Forall plain (listdir t fs' directory)) ->
  path_exists t directory = true ->
  process_directory t im directory true recursive fs
  = let '(converted_count, renamed_count, fs1) :=
      convert_pass im true (webp_files t fs directory recursive) 0 0 fs in
    (Some (converted_count, renamed_count), fs1).
Proof.
  intros Hw Hl He. unfold process_directory. rewrite He. cbn [negb].
  destruct (convert_pass im true (webp_files t fs directory recursive) 0 0 fs)
    as [[converted_count renamed_count] fs1].
  rewrite rename_pass_unnumbered; [reflexivity|].
  apply jpg_files_unnumbered; [apply Hw | apply Hl].
Qed.

Lemma process_directory_second_pass_renames_nothing_witness :
  let t := Tree (fun _ => true)
             (fun _ _ => [(u8 "/img", [u8 "rust.jpg"; u8 "a_01.webp"])])
             (fun _ _ => [u8 "rust.jpg"; u8 "a_01.webp"]) in
  let im := Imaging (fun b => Some (0xFF :: b)) (fun _ => true)
              (fun _ => true) (fun _ _ => true) in
  let fs : gmap pystr bytes :=
    {[ u8 "/img/rust.jpg" := [1]; u8 "/img/a_01.webp" := [2] ]} in
  fst (process_directory t im (u8 "/img") true true fs) = Some (1%nat, 1%nat)
  /\ is_Some (snd (process_directory t im (u8 "/img") true true fs)
                !! u8 "/img/rust.jpg").
Proof.
  intros t im fs.
  rewrite (process_directory_second_pass_renames_nothing t im (u8 "/img")
             true fs).
  - vm_compute. split; [reflexivity | eexists; reflexivity].
  - intros fs' root files [E|[]]. injection E as <- <-.
    repeat constructor; vm_compute; intuition discriminate.
  - intros fs'. repeat constructor; vm_compute; intuition discriminate.
  - reflexivity.
Defined.

(** ** The GUID pattern *)

Lemma guid_search_eq s :
  guid_search s
  = if has_shape guid_shape s then Some (firstn 36 s)
    else match s with [] => None | _ :: r => guid_search r end.
Proof. destruct s; reflexivity. Qed.

Lemma has_shape_app shape s t :
  has_shape shape s = true -> has_shape shape (s ++ t) = true.
Proof.
  revert s. induction shape as [|b shape IH]; intros s H; [reflexivity|].
  destruct s as [|c s]; [discriminate|]. cbn [app has_shape] in *.
  apply andb_prop in H. destruct H as [-> H]. rewrite (IH s H). reflexivity.
Qed.

Lemma has_shape_underscore shape s t :
  has_shape shape s = false -> has_shape shape (s ++ UNDERSCORE :: t) = false.
Proof.
  revert s. induction shape as [|b shape IH]; intros s H; [discriminate|].
  destruct s as [|c s]; cbn [app has_shape] in *.
  - destruct b; reflexivity.
  - destruct (if b then is_hex c else c =? 45); [|reflexivity].
    cbn [andb] in *. apply IH, H.
Qed.

Lemma has_shape_chars shape s c :
  has_shape shape s = true -> length s = length shape -> In c s ->
  is_hex c = true \/ c = 0x2D.
Proof.
  revert s. induction shape as [|b shape IH]; intros s H Hl Hin.
  - destruct s; [destruct Hin | discriminate].
  - destruct s as [|x s]; [destruct Hin|]. cbn [has_shape] in H.
    apply andb_prop in H. destruct H as [Hx H].
    destruct Hin as [->|Hin].
    + destruct b; [now left | right; apply N.eqb_eq, Hx].
    + apply (IH s H); [cbn in Hl; lia | exact Hin].
Qed.

Lemma is_guid_plain g : is_guid g = true -> plain g.
Proof.
  unfold is_guid. intros H Hin. apply andb_prop in H. destruct H as [Hs Hl].
  apply Nat.eqb_eq in Hl.
  destruct (has_shape_chars guid_shape g SLASH Hs Hl Hin); discriminate.
Qed.

Lemma guid_search_here g rest :
  is_guid g = true -> guid_search (g ++ rest) = Some g.
Proof.
  unfold is_guid. intros H. apply andb_prop in H. destruct H as [Hs Hl].
  apply Nat.eqb_eq in Hl.
  rewrite guid_search_eq, (has_shape_app _ _ rest Hs).
  replace 36%nat with (length g + 0)%nat by lia.
  rewrite firstn_app_2. cbn [firstn]. rewrite app_nil_r. reflexivity.
Qed.

Lemma guid_search_after p g rest :
  guid_search p = None -> is_guid g = true ->
  guid_search (p ++ UNDERSCORE :: g ++ rest) = Some g.
Proof.
  intros Hp Hg. induction p as [|c p IH].
  - cbn [app]. rewrite guid_search_eq.
    change (has_shape guid_shape (UNDERSCORE :: g ++ rest)) with false.
    cbv iota. apply guid_search_here, Hg.
  - rewrite guid_search_eq in Hp.
    destruct (has_shape guid_shape (c :: p)) eqn:E; [discriminate|].
    change ((c :: p) ++ UNDERSCORE :: g ++ rest)
      with (c :: (p ++ UNDERSCORE :: g ++ rest)).
    rewrite guid_search_eq.
    change (c :: (p ++ UNDERSCORE :: g ++ rest))
      with ((c :: p) ++ UNDERSCORE :: g ++ rest).
    rewrite (has_shape_underscore _ _ _ E). apply IH, Hp.
Qed.

Lemma is_hex_hex_digit d : d < 16 -> is_hex (hex_digit d) = true.
Proof.
  intros H. unfold is_hex, hex_digit, in_range.
  destruct (N.ltb_spec d 10).
  - apply orb_true_iff. left. apply andb_true_iff. split; apply N.leb_le; lia.
  - apply orb_true_iff. right. apply andb_true_iff. split; apply N.leb_le; lia.
Qed.

Lemma hex32_hex n : forallb is_hex (hex32 n) = true.
Proof.
  unfold hex32. apply forallb_forall. intros c Hin.
  apply in_map_iff in Hin. destruct Hin as [i [<- _]].
  apply is_hex_hex_digit. apply N.mod_lt. discriminate.
Qed.

Lemma hex32_length n : length (hex32 n) = 32%nat.
Proof. unfold hex32. rewrite length_map, length_rev, length_seq. reflexivity. Qed.

Lemma guid_format hex :
  length hex = 32%nat -> forallb is_hex hex = true ->
  is_guid (firstn 8 hex ++ [0x2D] ++ firstn 4 (skipn 8 hex) ++ [0x2D]
             ++ firstn 4 (skipn 12 hex) ++ [0x2D] ++ firstn 4 (skipn 16 hex)
             ++ [0x2D] ++ skipn 20 hex) = true.
Proof.
  intros Hl Hh.
  do 32 (destruct hex as [|? hex]; [discriminate|]).
  destruct hex; [|discriminate]. clear Hl.
  cbn [forallb] in Hh.
  repeat match type of Hh with
         | _ && _ = true =>
           let H := fresh "H" in
           apply andb_prop in Hh; destruct Hh as [H Hh]
         end.
  cbv [is_guid guid_shape repeat app firstn skipn has_shape length Nat.eqb].
  repeat match goal with
         | H : is_hex ?x = true |- _ => rewrite H; clear H
         end.
  reflexivity.
Qed.

Lemma uuid5_is_guid namespace name : is_guid (uuid5 namespace name) = true.
Proof.
  unfold uuid5. cbv zeta. apply guid_format; [apply hex32_length | apply hex32_hex].
Qed.

(** X22.  The identity derived by [uuid5] has the shape the converter
    looks for: 36 characters, groups of 8, 4, 4, 4 and 12 hexadecimal
    digits in lower case with hyphens between; the GUID pattern of the
    converter matches it in full, whatever follows it. *)
Theorem uuid5_matches_guid_pattern (namespace : bytes) (name rest : pystr) :
  is_guid (uuid5 namespace name) = true
  /\ guid_search (uuid5 namespace name ++ rest) = Some (uuid5 namespace name).
Proof.
  pose proof (uuid5_is_guid namespace name) as H. split; [exact H|].
  apply guid_search_here, H.
Qed.

(** ** The converter on the files of the crawler *)

Lemma lower_letter_chars ext c :
  forallb is_lower_letter ext = true -> is_lower_letter c = false -> ~ In c ext.
Proof. apply forallb_not_in. Qed.

Lemma file_name_plain_parts risk_type culture_en g n ext :
  plain risk_type -> plain culture_en -> plain g ->
  forallb is_lower_letter ext = true ->
  plain (file_name risk_type culture_en g n (DOT :: ext)).
Proof.
  intros Hr Hc Hg He. unfold file_name, plain. rewrite !in_app_iff.
  intros [H|[H|[H|[H|[H|[H|[H|H]]]]]]].
  - exact (Hr H).
  - destruct H as [H|[]]; discriminate.
  - exact (lower_plain _ Hc H).
  - destruct H as [H|[]]; discriminate.
  - exact (Hg H).
  - destruct H as [H|[]]; discriminate.
  - exact (format_02d_no_slash n H).
  - destruct H as [H|H]; [discriminate|].
    revert H. apply (lower_letter_chars ext SLASH He). reflexivity.
Qed.

Lemma last_char_plain name :
  plain name -> name <> [] -> exists d c, name = d ++ [c] /\ c <> SLASH.
Proof.
  intros Hp Hne. destruct (exists_last Hne) as [d [c ->]].
  exists d, c. split; [reflexivity|]. intros ->.
  apply Hp. apply in_or_app. right. now left.
Qed.

Lemma guid_search_file_name prefix risk_type culture_en g n ext :
  is_guid g = true ->
  guid_search (prefix ++ risk_type ++ [UNDERSCORE] ++ lower culture_en) = None ->
  guid_search (prefix ++ file_name risk_type culture_en g n ext) = Some g.
Proof.
  intros Hg Hp. unfold file_name.
  replace (prefix ++ risk_type ++ [UNDERSCORE] ++ lower culture_en
             ++ [UNDERSCORE] ++ g ++ [UNDERSCORE] ++ format_02d n ++ ext)
    with ((prefix ++ risk_type ++ [UNDERSCORE] ++ lower culture_en)
            ++ UNDERSCORE :: g ++ ([UNDERSCORE] ++ format_02d n ++ ext))
    by (rewrite <- !app_assoc; reflexivity).
  apply guid_search_after; assumption.
Qed.

Lemma number_match_file_name risk_type culture_en g n ext :
  forallb is_lower_letter ext = true -> ext <> [] ->
  number_match (file_name risk_type culture_en g n (DOT :: ext))
  = Some (format_02d n).
Proof.
  intros He Hene. unfold file_name.
  replace (risk_type ++ [UNDERSCORE] ++ lower culture_en ++ [UNDERSCORE]
             ++ g ++ [UNDERSCORE] ++ format_02d n ++ DOT :: ext)
    with ((risk_type ++ [UNDERSCORE] ++ lower culture_en ++ [UNDERSCORE]
             ++ g) ++ UNDERSCORE :: format_02d n ++ DOT :: ext)
    by (rewrite <- !app_assoc; reflexivity).
  apply number_match_suffix;
    [apply format_02d_digits | apply format_02d_nonempty | exact He | exact Hene].
Qed.

Lemma splitext_ext_file_name risk_type culture_en g n ext :
  plain (file_name risk_type culture_en g n (DOT :: ext)) ->
  forallb is_lower_letter ext = true ->
  splitext_ext (file_name risk_type culture_en g n (DOT :: ext)) = DOT :: ext.
Proof.
  intros Hp He. revert Hp. unfold file_name.
  replace (risk_type ++ [UNDERSCORE] ++ lower culture_en ++ [UNDERSCORE]
             ++ g ++ [UNDERSCORE] ++ format_02d n ++ DOT :: ext)
    with ((risk_type ++ [UNDERSCORE] ++ lower culture_en ++ [UNDERSCORE]
             ++ g ++ [UNDERSCORE] ++ format_02d n) ++ DOT :: ext)
    by (rewrite <- !app_assoc; reflexivity).
  intros Hp. apply (splitext_ext_plain _ UNDERSCORE).
  - exact Hp.
  - apply (lower_letter_chars ext DOT He). reflexivity.
  - apply in_or_app. right. now left.
  - discriminate.
Qed.

Lemma split_on_risk_dir w risk_type culture_en risk_name_en :
  plain risk_type -> plain culture_en -> plain (risk_dir_name risk_name_en) ->
  split_on SLASH (risk_dir_of w risk_type culture_en risk_name_en)
  = split_on SLASH (DOWNLOAD_DIR w)
      ++ [risk_type; culture_en; risk_dir_name risk_name_en].
Proof.
  intros Hr Hc Hn. unfold risk_dir_of, path_join.
  rewrite <- !app_assoc. cbn [app].
  rewrite split_on_app_any. f_equal.
  rewrite split_on_app by exact Hr. f_equal.
  rewrite split_on_app by exact Hc. f_equal.
  apply split_on_plain, Hn.
Qed.

(** X23.  The converter leaves the files of the crawler in place.  For a
    file stored by the acquisition loop under its risk directory, with a
    GUID-shaped identity and an extension of lower-case letters, the name
    the converter builds from the directory components, the GUID found in
    the path and the number found in the name is the name the file has:
    the path returned is the path given and the file system is unchanged.
    The risk directory is a normalised path, no component of the download
    directory is a risk type, and no GUID-like text stands before the
    identity in the path. *)
Theorem rename_keeps_crawler_files (w : world) (im : imaging)
    (risk_type culture_en risk_name_en g ext directory file_path : pystr)
    (n : N) (fs : gmap pystr bytes) :
  directory = risk_dir_of w risk_type culture_en risk_name_en ->
  file_path
    = path_join directory (file_name risk_type culture_en g n (DOT :: ext)) ->
  normpath directory = directory ->
  Forall (fun p => is_risk_type p = false) (split_on SLASH (DOWNLOAD_DIR w)) ->
  is_risk_type risk_type = true ->
  plain culture_en ->
  plain (risk_dir_name risk_name_en) -> risk_dir_name risk_name_en <> [] ->
  is_guid g = true ->
  guid_search (path_join directory
                 (risk_type ++ [UNDERSCORE] ++ lower culture_en)) = None ->
  forallb is_lower_letter ext = true -> ext <> [] ->
  rename_file_according_to_pattern im file_path fs = (file_path, fs).
Proof.
  intros Hdir Hpath Hnorm Hbase Hrt Hc Hn Hnne Hg Hgs He Hene.
  pose proof (risk_type_plain _ Hrt) as Hr.
  set (F := file_name risk_type culture_en g n (DOT :: ext)) in *.
  assert (HF : plain F)
    by (apply file_name_plain_parts;
        [exact Hr | exact Hc | apply is_guid_plain, Hg | exact He]).
  destruct (last_char_plain _ Hn Hnne) as [d [c [Ed Hcs]]].
  assert (ED : exists D, directory = D ++ [c]).
  { rewrite Hdir. unfold risk_dir_of. unfold path_join at 1. rewrite Ed.
    eexists. rewrite !app_assoc. reflexivity. }
  destruct ED as [D ED].
  assert (Efp : file_path = (D ++ [c]) ++ SLASH :: F)
    by (rewrite Hpath, ED; reflexivity).
  assert (E1 : posix_dirname file_path = directory)
    by (rewrite Efp, ED; apply posix_dirname_join; assumption).
  assert (E2 : basename file_path = F)
    by (rewrite Efp; apply basename_join, HF).
  assert (E3 : split_on SLASH (normpath directory)
               = split_on SLASH (DOWNLOAD_DIR w)
                   ++ [risk_type; culture_en; risk_dir_name risk_name_en]).
  { rewrite Hnorm, Hdir. apply split_on_risk_dir; assumption. }
  assert (E4 : guid_search file_path = Some g).
  { rewrite Hpath. unfold path_join. rewrite app_assoc.
    apply guid_search_file_name; [exact Hg|].
    rewrite <- app_assoc. exact Hgs. }
  assert (E5 : number_match F = Some (format_02d n))
    by (apply number_match_file_name; assumption).
  assert (E6 : splitext_ext F = DOT :: ext)
    by (apply splitext_ext_file_name; assumption).
  assert (E7 : posix_join directory F = file_path).
  { rewrite ED, Efp. apply posix_join_plain; [exact Hcs|].
    apply startswith_slash_plain, HF. }
  unfold rename_file_according_to_pattern. cbv zeta.
  rewrite E1, E2, E3.
  rewrite (find_risk_type_app _ _ _ Hbase Hrt).
  rewrite (culture_and_disease_app _ _ _ _ Hbase Hrt).
  rewrite E4, E5, E6. cbn [default from_option id].
  assert (E8 : pystr_eqb (DOT :: ext) [] = false)
    by (apply pystr_eqb_neq; discriminate).
  rewrite E8.
  change (risk_type ++ [UNDERSCORE] ++ lower culture_en ++ [UNDERSCORE] ++ g
            ++ [UNDERSCORE] ++ format_02d n ++ DOT :: ext) with F.
  rewrite E7.
  destruct (fs !! file_path) as [data|] eqn:Ef; [|reflexivity].
  destruct (can_rename im file_path file_path); [|reflexivity].
  rewrite insert_delete_id by exact Ef. reflexivity.
Qed.

Lemma rename_keeps_crawler_files_witness :
  let w := World (u8 "/data/images") (fun _ => None) (fun _ => None)
             (fun _ => true) (fun _ => true) true in
  let im := Imaging (fun b => Some b) (fun _ => true) (fun _ => true)
              (fun _ _ => true) in
  let p := u8 "/data/images/diseases/wheat/leaf_rust/diseases_wheat_72a795b3-a833-56bd-b712-23bfba2f5ec2_07.jpg" in
  let fs : gmap pystr bytes := {[ p := [1; 2; 3] ]} in
  rename_file_according_to_pattern im p fs = (p, fs).
Proof.
  intros w im p fs.
  refine (rename_keeps_crawler_files w im (u8 "diseases") (u8 "wheat")
            (u8 "Leaf rust") (u8 "72a795b3-a833-56bd-b712-23bfba2f5ec2")
            (u8 "jpg") (u8 "/data/images/diseases/wheat/leaf_rust") p 7 fs
            eq_refl eq_refl eq_refl _ eq_refl _ _ _ eq_refl eq_refl eq_refl _).
  - vm_compute. repeat constructor.
  - vm_compute. intuition discriminate.
  - vm_compute. intuition discriminate.
  - discriminate.
  - discriminate.
Defined.

(** X24.  The converter finds the identity of the crawler: in a path
    stored by the acquisition loop under its derived identity, the first
    text of GUID shape is that identity, provided no text of GUID shape
    stands before it in the path. *)
Theorem converter_finds_crawler_guid (w : world)
    (risk_type culture_en risk_name_en ext : pystr) (n : N) :
  guid_search (path_join (risk_dir_of w risk_type culture_en risk_name_en)
                 (risk_type ++ [UNDERSCORE] ++ lower culture_en)) = None ->
  guid_search
    (path_join (risk_dir_of w risk_type culture_en risk_name_en)
       (file_name risk_type culture_en
          (derive_guid risk_type culture_en risk_name_en) n ext))
  = Some (derive_guid risk_type culture_en risk_name_en).
Proof.
  intros H. unfold path_join in *. rewrite app_assoc.
  apply guid_search_file_name; [apply uuid5_is_guid|].
  rewrite <- app_assoc. exact H.
Qed.

Lemma converter_finds_crawler_guid_witness :
  let w := World (u8 "/data/images") (fun _ => None) (fun _ => None)
             (fun _ => true) (fun _ => true) true in
  guid_search
    (path_join (risk_dir_of w (u8 "diseases") (u8 "wheat") (u8 "Leaf rust"))
       (file_name (u8 "diseases") (u8 "wheat")
          (derive_guid (u8 "diseases") (u8 "wheat") (u8 "Leaf rust")) 7
          (u8 ".jpg")))
  = Some (derive_guid (u8 "diseases") (u8 "wheat") (u8 "Leaf rust")).
Proof.
  intros w.
  apply (converter_finds_crawler_guid w (u8 "diseases") (u8 "wheat")
           (u8 "Leaf rust") (u8 ".jpg") 7).
  vm_compute. reflexivity.
Defined.
